(** * data_anonymiser: the anonymising tree transform

    A shallow embedding of [src/misc/data_anonymiser.py]: the two
    regular expressions, the four pseudonym dictionaries, the functions
    [anonymise_value], [anonymise_string] and [anonymise], and the
    properties of the transform.

    Strings are sequences of characters with code points below 256; the
    character predicates ([\d], [\s], [str.lower]) are those of Python
    on that range. *)

From Stdlib Require Import Ascii.
From Stdlib Require String.
From stdpp Require Import gmap strings list fin_maps pretty.

Set Warnings "-register-all".

(** ** Characters and [str.lower] *)

Module Chars.

Definition code (c : ascii) : N := N_of_ascii c.

Definition in_range (lo hi : N) (c : ascii) : bool :=
  ((lo <=? code c) && (code c <=? hi))%N.

(** [\d] on code points below 256: the decimal digits. *)
Definition is_digit (c : ascii) : bool := in_range 48 57 c.

(** [\s] for a [str] pattern: tab to carriage return, the four
    separators 0x1c-0x1f, space, NEL and no-break space. *)
Definition is_space (c : ascii) : bool :=
  in_range 9 13 c || in_range 28 32 c
  || (code c =? 133)%N || (code c =? 160)%N.

Definition is_char (x : ascii) (c : ascii) : bool := Ascii.eqb x c.

Definition not_char (x : ascii) (c : ascii) : bool := negb (Ascii.eqb x c).

(** [str.lower] on one character: A-Z, and the Latin-1 capitals
    0xC0-0xDE without the multiplication sign 0xD7. *)
Definition lower_char (c : ascii) : ascii :=
  if in_range 65 90 c
     || (in_range 192 222 c && negb (code c =? 215)%N)
  then ascii_of_N (code c + 32)
  else c.

Fixpoint lower (s : string) : string :=
  match s with
  | EmptyString => EmptyString
  | String c s' => String (lower_char c) (lower s')
  end.

(** Every character of [s] is in the class. *)
Fixpoint all_chars (cls : ascii -> bool) (s : string) : bool :=
  match s with
  | EmptyString => true
  | String c s' => cls c && all_chars cls s'
  end.

(** [s.isdigit()] for a non-empty [s] of decimal digits. *)
Definition digits_only (s : string) : bool := all_chars is_digit s.

End Chars.

(** ** Regular expressions, as far as the two patterns need them

    A pattern is a sequence of items, each over a character class: one
    character, an optional character ([?]), or a greedy repetition with
    a lower bound ([+] is [Rep 1], [{6,}] is [Rep 6]). *)

Module Re.

Inductive item : Type :=
| One (cls : ascii -> bool)
| Opt (cls : ascii -> bool)
| Rep (least : nat) (cls : ascii -> bool).

Definition pattern := list item.

(** Greedy repetition with backtracking: take one more character of
    the class when possible, else (or when the rest then fails) go on
    with the continuation [k], provided the bound is met. *)
Fixpoint rep (k : string -> bool) (least : nat) (cls : ascii -> bool)
    (s : string) : bool :=
  match s with
  | String c s' =>
      (cls c && rep k (Nat.pred least) cls s')
      || (Nat.eqb least 0 && k s)
  | EmptyString => Nat.eqb least 0 && k s
  end.

(** [run p s]: some prefix of [s] matches [p]. *)
Fixpoint run (p : pattern) (s : string) : bool :=
  match p with
  | [] => true
  | One cls :: p' =>
      match s with
      | String c s' => cls c && run p' s'
      | EmptyString => false
      end
  | Opt cls :: p' =>
      match s with
      | String c s' => (cls c && run p' s') || run p' s
      | EmptyString => run p' s
      end
  | Rep least cls :: p' => rep (run p') least cls s
  end.

(** [pattern.match(s)] used as a condition: a match object is truthy,
    [None] is not. *)
Definition re_match (p : pattern) (s : string) : bool := run p s.

End Re.

Import Chars.

(** [EMAIL_REGEX = re.compile(r"[^@]+@[^@]+\.[^@]+")] *)
Definition EMAIL_REGEX : Re.pattern :=
  [ Re.Rep 1 (not_char "@"%char); Re.One (is_char "@"%char);
    Re.Rep 1 (not_char "@"%char); Re.One (is_char "."%char);
    Re.Rep 1 (not_char "@"%char) ].

(** The class [[\d\s\-()]] of [PHONE_REGEX]. *)
Definition phone_body (c : ascii) : bool :=
  is_digit c || is_space c || is_char "-"%char c || is_char "("%char c || is_char ")"%char c.

(** [PHONE_REGEX = re.compile(r"\+?\d[\d\s\-()]{6,}\d")] *)
Definition PHONE_REGEX : Re.pattern :=
  [ Re.Opt (is_char "+"%char); Re.One is_digit;
    Re.Rep 6 phone_body; Re.One is_digit ].

(** ** The pseudonym dictionaries *)

(** [url_map, email_map, phone_map, text_map = {}, {}, {}, {}] *)
Record registry : Type := Registry {
  url_map : gmap string string;
  email_map : gmap string string;
  phone_map : gmap string string;
  text_map : gmap string string
}.

Definition empty_registry : registry := Registry ∅ ∅ ∅ ∅.

(** [anonymise_value(value, mapping, prefix)]: the token and the
    dictionary after the call. *)
Definition anonymise_value (value : string) (mapping : gmap string string)
    (prefix : string) : string * gmap string string :=
  match mapping !! value with
  | Some token => (token, mapping)
  | None =>
      let token := prefix +:+ pretty (size mapping + 1) in
      (token, <[value := token]> mapping)
  end.

(** [anonymise_string(s)]: the token and the registry after the call. *)
Definition anonymise_string (s : string) (r : registry) : string * registry :=
  if Re.re_match EMAIL_REGEX s then
    let '(t, m) := anonymise_value s (email_map r) "email" in
    (t, Registry (url_map r) m (phone_map r) (text_map r))
  else if Re.re_match PHONE_REGEX s then
    let '(t, m) := anonymise_value s (phone_map r) "phone" in
    (t, Registry (url_map r) (email_map r) m (text_map r))
  else if String.prefix "http" s then
    let '(t, m) := anonymise_value s (url_map r) "url" in
    (t, Registry m (email_map r) (phone_map r) (text_map r))
  else
    let '(t, m) := anonymise_value s (text_map r) "text" in
    (t, Registry (url_map r) (email_map r) (phone_map r) m).

(** ** JSON values *)

(** What [json.load] returns: [None], [bool], [int], [float] (its 64
    bits, which the transform never inspects), [str], [list], [dict].
    A [dict] is its items in insertion order; Python keeps its keys
    unique (see [wf_json]). [JOther] stands for any other object. *)
Inductive json : Type :=
| JNull
| JBool (b : bool)
| JInt (n : Z)
| JFloat (bits : Z)
| JStr (s : string)
| JList (l : list json)
| JDict (items : list (string * json))
| JOther (ident : positive).

(** ** Dictionaries under construction *)

Module Dict.

Definition keys {A} (d : list (string * A)) : list string := d.*1.

(** [d.get(k)] *)
Fixpoint get {A} (d : list (string * A)) (k : string) : option A :=
  match d with
  | [] => None
  | (k', x) :: d' => if String.eqb k' k then Some x else get d' k
  end.

(** [d[k] = x]: a present key keeps its position and takes the new
    value, a new key goes to the end. *)
Fixpoint set {A} (d : list (string * A)) (k : string) (x : A)
    : list (string * A) :=
  match d with
  | [] => [(k, x)]
  | (k', x') :: d' =>
      if String.eqb k' k then (k', x) :: d' else (k', x') :: set d' k x
  end.

End Dict.

(** ** Field-name policy tables *)

Definition ANON_BLOCKS : gset string :=
  {[ "data_providers"; "contacts"; "citations"; "authors";
     "unique_datasets"; "dataset_identifiers"; "datasets"; "data_files";
     "data_resources"; "data_collections"; "data_licences"; "data_tags" ]}.

Definition PIPELINE_FIELDS : gset string := {[ "script"; "endpoints" ]}.

Definition SKIP_KEYS : gset string := {[ "location"; "id"; "uuid" ]}.

(** [k in S] as a condition. *)
Definition mem (k : string) (S : gset string) : bool := bool_decide (k ∈ S).

(** ** The state monad of the transform

    A computation reads and updates the registry; [None] is a
    recursion that ran out of fuel (see [anonymise_fuel]): the
    interpreter raising [RecursionError]. *)

Definition M (A : Type) : Type := registry -> option (A * registry).

Definition ret {A} (x : A) : M A := fun r => Some (x, r).

Definition bind {A B} (c : M A) (f : A -> M B) : M B :=
  fun r => match c r with
           | Some (x, r') => f x r'
           | None => None
           end.

Notation "'do' x <- c1 ; c2" := (bind c1 (fun x => c2))
  (at level 10, x name, c1 at level 100, c2 at level 200,
   format "'[v' 'do'  x  <-  c1 ; '/' c2 ']'").

(** A call of [anonymise_string] inside the transform. *)
Definition string_token (s : string) : M json :=
  fun r => let '(t, r') := anonymise_string s r in Some (JStr t, r').

(** [[f(x) for x in l]], left to right. *)
Fixpoint for_each {A B} (f : A -> M B) (l : list A) : M (list B) :=
  match l with
  | [] => ret []
  | x :: l' =>
      do y <- f x;
      do ys <- for_each f l';
      ret (y :: ys)
  end.

(** ** The transform *)

Definition is_list (v : json) : bool :=
  match v with JList _ => true | _ => false end.

(** [v[:1]] for a list [v]. *)
Definition first_only (v : json) : json :=
  match v with JList l => JList (take 1 l) | _ => v end.

(** Lines 78-81: [if k == "data_files" and isinstance(v, list): v = v[:1]],
    and the same for ["data_resources"]. *)
Definition limit (k : string) (v : json) : json :=
  let v := if String.eqb k "data_files" && is_list v then first_only v else v in
  let v := if String.eqb k "data_resources" && is_list v then first_only v else v in
  v.

Section Loop.

(** The recursive call [anonymise(v, k, force=...)]. *)
Variable rec : json -> option string -> bool -> M json.
Variable force : bool.

(** Lines 84-94: the value stored under [k] in [new_obj]. *)
Definition entry (k : string) (v : json) : M json :=
  if force || mem (lower k) PIPELINE_FIELDS then
    match v with
    | JStr s => string_token s
    | _ => rec v (Some k) true
    end
  else if mem (lower k) ANON_BLOCKS then rec v (Some k) true
  else if mem (lower k) SKIP_KEYS then ret v
  else rec v (Some k) false.

(** [for k, v in obj.items(): ...; return new_obj] *)
Fixpoint dict_loop (items new_obj : list (string * json))
    : M (list (string * json)) :=
  match items with
  | [] => ret new_obj
  | (k, v) :: rest =>
      let v := limit k v in
      do x <- entry k v;
      dict_loop rest (Dict.set new_obj k x)
  end.

End Loop.

(** [anonymise(obj, parent_key, force)], with the depth of the
    recursion bounded by [fuel]: the number of nested calls of
    [anonymise] for which the interpreter's recursion limit leaves room
    (the frames of the caller, of list comprehensions and of the two
    calls below a string leaf taken off). Out of fuel, the call raises
    [RecursionError]. *)
Fixpoint anonymise_fuel (fuel : nat) (obj : json) (parent_key : option string)
    (force : bool) : M json :=
  match fuel with
  | O => fun _ => None
  | S fuel' =>
      match obj with
      | JDict items =>
          do new_obj <- dict_loop (anonymise_fuel fuel') force items [];
          ret (JDict new_obj)
      | JList l =>
          do l' <- for_each (fun x => anonymise_fuel fuel' x parent_key force) l;
          ret (JList l')
      | JStr s => if force then string_token s else ret obj
      | _ => ret obj
      end
  end.

(** The nesting depth of a value. *)
Fixpoint height (v : json) : nat :=
  match v with
  | JList l => S (foldr Nat.max 0 (map height l))
  | JDict items => S (foldr Nat.max 0 (map (fun kv => height kv.2) items))
  | _ => 0
  end.

(** What the transform returns when the interpreter's limit is not
    reached: the recursion is as deep as the value (see
    [anonymise_returns_below_limit] for the limit). *)
Definition anonymise (obj : json) (parent_key : option string) (force : bool)
    : M json :=
  anonymise_fuel (S (height obj)) obj parent_key force.

(** The root call of the script: [anonymise(data)] on fresh dictionaries. *)
Definition anonymise_document (data : json) : option (json * registry) :=
  anonymise data None false empty_registry.

Definition scenario : json :=
  JDict [ ("contacts", JList [ JDict [ ("name", JStr "Jane Doe");
                                       ("email", JStr "jane@x.com") ] ]);
          ("id", JStr "abc-1");
          ("notes", JStr "see http://x.com") ].


(** ** Categories: which dictionary [anonymise_string] uses *)

Inductive category : Type := Email | Phone | Url | Text.

#[global] Instance category_eq_dec : EqDecision category.
Proof. solve_decision. Defined.

Definition classify (s : string) : category :=
  if Re.re_match EMAIL_REGEX s then Email
  else if Re.re_match PHONE_REGEX s then Phone
  else if String.prefix "http" s then Url
  else Text.

Definition prefix_of (c : category) : string :=
  match c with
  | Email => "email" | Phone => "phone" | Url => "url" | Text => "text"
  end.

Definition map_of (c : category) (r : registry) : gmap string string :=
  match c with
  | Email => email_map r | Phone => phone_map r
  | Url => url_map r | Text => text_map r
  end.

Definition with_map (c : category) (m : gmap string string) (r : registry)
    : registry :=
  match c with
  | Email => Registry (url_map r) m (phone_map r) (text_map r)
  | Phone => Registry (url_map r) (email_map r) m (text_map r)
  | Url => Registry m (email_map r) (phone_map r) (text_map r)
  | Text => Registry (url_map r) (email_map r) (phone_map r) m
  end.

(** The token the registry holds for [s], if any. *)
Definition token_of (r : registry) (s : string) : option string :=
  map_of (classify s) r !! s.

(** ** Runs

    Within one run the registry changes only through calls of
    [anonymise_string]; a run starts from the empty dictionaries. *)

Inductive evolves : registry -> registry -> Prop :=
| evolves_refl r : evolves r r
| evolves_step r s r' :
    evolves (anonymise_string s r).2 r' -> evolves r r'.

Definition reachable (r : registry) : Prop := evolves empty_registry r.

(** The tokens of one dictionary are its prefix followed by a counter
    between 1 and the size of the dictionary, and no two keys share a
    token. *)
Definition map_ok (prefix : string) (m : gmap string string) : Prop :=
  (∀ s t, m !! s = Some t ->
          ∃ n, 1 <= n <= size m ∧ t = prefix +:+ pretty n)
  ∧ (∀ s1 s2 t, m !! s1 = Some t -> m !! s2 = Some t -> s1 = s2).

Definition registry_ok (r : registry) : Prop :=
  ∀ c, map_ok (prefix_of c) (map_of c r).

(** ** Well-formed values: the keys of every mapping are unique *)

Fixpoint wf_json (v : json) : bool :=
  match v with
  | JList l => forallb wf_json l
  | JDict items =>
      bool_decide (NoDup (Dict.keys items))
      && forallb (fun kv => wf_json kv.2) items
  | _ => true
  end.

(** Numbers, booleans, null and foreign objects. *)
Definition is_scalar (v : json) : bool :=
  match v with
  | JNull | JBool _ | JInt _ | JFloat _ | JOther _ => true
  | _ => false
  end.

(** ** Paths into a value *)

Inductive step : Type := Key (k : string) | Idx (i : nat).

Fixpoint get_path (v : json) (p : list step) : option json :=
  match p with
  | [] => Some v
  | Key k :: p' =>
      match v with
      | JDict items =>
          match Dict.get items k with
          | Some v' => get_path v' p'
          | None => None
          end
      | _ => None
      end
  | Idx i :: p' =>
      match v with
      | JList l =>
          match l !! i with
          | Some v' => get_path v' p'
          | None => None
          end
      | _ => None
      end
  end.

(** The keys whose list the transform cuts to its first element. *)
Definition limited (k : string) : bool :=
  String.eqb k "data_files" || String.eqb k "data_resources".

(** A path is kept when it never takes an element after the first
    directly under a limited key. *)
Fixpoint kept (p : list step) : bool :=
  match p with
  | [] => true
  | Key k :: p' =>
      match p' with
      | Idx (S _) :: _ => negb (limited k) && kept p'
      | _ => kept p'
      end
  | Idx _ :: p' => kept p'
  end.

(** How a subtree is treated: every string replaced, strings kept, or
    the subtree copied as it is. *)
Inductive mode : Type := Forced | Unforced | Copied.

Definition mode_of (force : bool) : mode :=
  if force then Forced else Unforced.

(** The treatment of the value under key [k] (lines 84-94). *)
Definition enter (m : mode) (k : string) : mode :=
  match m with
  | Unforced =>
      if mem (lower k) PIPELINE_FIELDS then Forced
      else if mem (lower k) ANON_BLOCKS then Forced
      else if mem (lower k) SKIP_KEYS then Copied
      else Unforced
  | _ => m
  end.

Fixpoint mode_at (m : mode) (p : list step) : mode :=
  match p with
  | [] => m
  | Key k :: p' => mode_at (enter m k) p'
  | Idx _ :: p' => mode_at m p'
  end.

(** The keys of a path. *)
Definition path_keys (p : list step) : list string :=
  omap (fun st => match st with Key k => Some k | Idx _ => None end) p.

(** ** Shape of a value

    Same keys in the same order, same lengths, scalars equal; under a
    limited key the output may have the shape of the cut list. *)
Inductive same_shape : json -> json -> Prop :=
| shape_scalar v : is_scalar v = true -> same_shape v v
| shape_str s t : same_shape (JStr s) (JStr t)
| shape_list l l' :
    Forall2 same_shape l l' -> same_shape (JList l) (JList l')
| shape_dict items res :
    Forall2 (fun kv kx =>
               kv.1 = kx.1
               ∧ (same_shape kv.2 kx.2 ∨ same_shape (limit kv.1 kv.2) kx.2))
            items res ->
    same_shape (JDict items) (JDict res).

(** ** The transform as a relation

    [anon force v r out r']: on a well-formed value the call
    [anonymise(v, _, force)] started with registry [r] returns [out]
    and leaves registry [r'] (see [anonymise_fuel_sound]). *)
Inductive anon : bool -> json -> registry -> json -> registry -> Prop :=
| anon_dict force items res r r' :
    anon_items force items r res r' ->
    anon force (JDict items) r (JDict res) r'
| anon_list force l l' r r' :
    anon_elems force l r l' r' ->
    anon force (JList l) r (JList l') r'
| anon_token s r :
    anon true (JStr s) r (JStr (anonymise_string s r).1) (anonymise_string s r).2
| anon_plain s r :
    anon false (JStr s) r (JStr s) r
| anon_scalar force v r :
    is_scalar v = true -> anon force v r v r
with anon_elems : bool -> list json -> registry -> list json -> registry -> Prop :=
| anon_nil force r : anon_elems force [] r [] r
| anon_cons force x xs y ys r r1 r2 :
    anon force x r y r1 ->
    anon_elems force xs r1 ys r2 ->
    anon_elems force (x :: xs) r (y :: ys) r2
with anon_items : bool -> list (string * json) -> registry ->
                  list (string * json) -> registry -> Prop :=
| anon_items_nil force r : anon_items force [] r [] r
| anon_items_cons force k v x items res r r1 r2 :
    anon_entry force k (limit k v) r x r1 ->
    anon_items force items r1 res r2 ->
    anon_items force ((k, v) :: items) r ((k, x) :: res) r2
with anon_entry : bool -> string -> json -> registry -> json -> registry -> Prop :=
| anon_entry_go force k v r x r' :
    enter (mode_of force) k <> Copied ->
    anon (match enter (mode_of force) k with Forced => true | _ => false end)
         v r x r' ->
    anon_entry force k v r x r'
| anon_entry_copy force k v r :
    enter (mode_of force) k = Copied ->
    anon_entry force k v r v r.

Scheme anon_mut := Minimality for anon Sort Prop
  with anon_elems_mut := Minimality for anon_elems Sort Prop
  with anon_items_mut := Minimality for anon_items Sort Prop
  with anon_entry_mut := Minimality for anon_entry Sort Prop.

Combined Scheme anon_mutind from
  anon_mut, anon_elems_mut, anon_items_mut, anon_entry_mut.

(** What the output holds for an input string [s] treated in mode [m],
    given the final registry: its token, or [s] itself. *)
Definition leaf_ok (m : mode) (r : registry) (s t : string) : Prop :=
  match m with
  | Forced => token_of r s = Some t
  | _ => t = s
  end.

(** The value stored under a key is the [entry] of that key, computed
    on the cut value, at some point of the run. *)
Definition stored (rec : json -> option string -> bool -> M json)
    (force : bool) (kv kx : string * json) : Prop :=
  kv.1 = kx.1
  ∧ ∃ r1 r2, entry rec force kv.1 (limit kv.1 kv.2) r1 = Some (kx.2, r2).

(** A force-block key inside a skipped block. *)
Definition skipped_block : json :=
  JDict [ ("location", JDict [ ("contacts", JStr "Jane Doe") ]) ].

(** A skip key inside a force block. *)
Definition forced_skip : json :=
  JDict [ ("contacts", JList [ JDict [ ("id", JStr "abc-1") ] ]) ].

(** A key that is limited only once lowered. *)
Definition capital_files : json :=
  JDict [ ("Data_Files", JList [ JInt 1; JInt 2 ]) ].

(** A limited key that holds strings. *)
Definition two_files : json :=
  JDict [ ("data_files", JList [ JStr "a.csv"; JStr "b.csv" ]) ].

(** ** A run as a sequence of calls *)

(** The registry after [anonymise_string] was called on the strings of
    [l], first to last. *)
Definition anonymise_strings (l : list string) (r : registry) : registry :=
  foldl (fun r s => (anonymise_string s r).2) r l.

(** Every counter from 1 to the size of the dictionary is in use. *)
Definition map_full (prefix : string) (m : gmap string string) : Prop :=
  ∀ n : nat, 1 <= n <= size m -> ∃ s, m !! s = Some (prefix +:+ pretty n).

(** ** Values the root call leaves alone *)

(** A key that is in neither forcing table. *)
Definition neutral_key (k : string) : bool :=
  negb (mem (lower k) ANON_BLOCKS) && negb (mem (lower k) PIPELINE_FIELDS).

(** No key of a mapping forces, as far as the root call looks: what
    sits under a skip key is not looked at. *)
Fixpoint no_forcing_key (v : json) : bool :=
  match v with
  | JList l => forallb no_forcing_key l
  | JDict items =>
      forallb (fun kv => neutral_key kv.1
                         && (mem (lower kv.1) SKIP_KEYS || no_forcing_key kv.2))
              items
  | _ => true
  end.

(** A limited key inside a skipped block. *)
Definition skipped_files : json :=
  JDict [ ("records", JList [ JDict [ ("location",
            JDict [ ("data_files", JList [ JStr "a"; JStr "b" ]) ]) ] ]) ].

(** A force field name in capitals. *)
Definition script_field : json :=
  JDict [ ("pipeline", JDict [ ("Script", JStr "run.sh") ]) ].

(** ** The script around the transform (lines 119-126) *)

(** [MAX_RECORDS = 5] *)
Definition MAX_RECORDS : nat := 5.

(** The one exception the lines between loading and writing can raise. *)
Inductive failure : Type := TypeError.

(** [sub in s] for two strings. *)
Fixpoint contains (sub s : string) : bool :=
  String.prefix sub s
  || match s with
     | String _ s' => contains sub s'
     | EmptyString => false
     end.

(** [x == "records"] for an element [x] of a list. *)
Definition is_records (x : json) : bool :=
  match x with JStr s => String.eqb s "records" | _ => false end.

(** ["records" in data]: a key of a mapping, an element of a list, a
    part of a string; any other value is not iterable ([json.load]
    returns no [JOther], which is taken as not iterable too). *)
Definition has_records (data : json) : failure + bool :=
  match data with
  | JDict items => inr (existsb (String.eqb "records") (Dict.keys items))
  | JList l => inr (existsb is_records l)
  | JStr s => inr (contains "records" s)
  | _ => inl TypeError
  end.

(** Lines 123-124: [if "records" in data and isinstance(data["records"],
    list): data["records"] = data["records"][:MAX_RECORDS]]. A list or
    a string cannot be indexed by ["records"]. *)
Definition trim_records (data : json) : failure + json :=
  match has_records data with
  | inl e => inl e
  | inr false => inr data
  | inr true =>
      match data with
      | JDict items =>
          match Dict.get items "records" with
          | Some (JList l) =>
              inr (JDict (Dict.set items "records" (JList (take MAX_RECORDS l))))
          | _ => inr data
          end
      | _ => inl TypeError
      end
  end.

(** From the loaded document to the value that is written: trim, then
    [anonymise(data)] on the fresh dictionaries. *)
Definition script (data : json) : failure + option (json * registry) :=
  match trim_records data with
  | inl e => inl e
  | inr data' => inr (anonymise_document data')
  end.

(** What [json.load] can return at the top: no foreign object. *)
Definition from_load (data : json) : bool :=
  match data with JOther _ => false | _ => true end.

(** Six records, and a key beside them. *)
Definition six_records : json :=
  JDict [ ("uuid", JStr "u-1");
          ("records", JList [ JInt 1; JInt 2; JInt 3; JInt 4; JInt 5; JInt 6 ]) ].

(** ** location_analysis_final.py: names, counts and file identities *)

Module Location.

(** [PLACEHOLDERS = {"-", "n/a", "na", "unknown"}] *)
Definition PLACEHOLDERS : gset string := {[ "-"; "n/a"; "na"; "unknown" ]}.

(** [s.lstrip(chars)] for the characters of a class. *)
Fixpoint lstrip (cls : ascii -> bool) (s : string) : string :=
  match s with
  | String c s' => if cls c then lstrip cls s' else s
  | EmptyString => EmptyString
  end.

(** [s.rstrip(chars)] for the characters of a class. *)
Fixpoint rstrip (cls : ascii -> bool) (s : string) : string :=
  match s with
  | String c s' =>
      match rstrip cls s' with
      | EmptyString => if cls c then EmptyString else String c EmptyString
      | r => String c r
      end
  | EmptyString => EmptyString
  end.

(** [s.strip(chars)]; [s.strip()] is [strip is_space s]. *)
Definition strip (cls : ascii -> bool) (s : string) : string :=
  rstrip cls (lstrip cls s).

(** [clean_location_name(name)]; [None] is Python's [None], which is
    also what a missing name ([JNull]) gives. *)
Definition clean_location_name (name : json) : option string :=
  match name with
  | JStr s =>
      let name := strip is_space s in
      if mem (lower name) PLACEHOLDERS || String.eqb name "" then None
      else Some name
  | _ => None
  end.

(** The characters that [is_scotland] strips, by code point: full stop,
    comma, semicolon, colon, exclamation and question mark, the single
    (39) and the double (34) quote, parentheses, brackets and braces. *)
Definition is_punct (c : ascii) : bool :=
  existsb (fun n => (code c =? n)%N)
          [46; 44; 59; 58; 33; 63; 39; 34; 40; 41; 91; 93; 123; 125]%N.

(** [is_scotland(name)] *)
Definition is_scotland (name : json) : bool :=
  match name with
  | JStr s =>
      String.eqb (lower (strip is_punct (strip is_space s))) "scotland"
  | _ => false
  end.

(** [c in s] for a character. *)
Fixpoint has_char (c : ascii) (s : string) : bool :=
  match s with
  | String c' s' => Ascii.eqb c' c || has_char c s'
  | EmptyString => false
  end.

(** [os.path.basename(path)] with the separator [/]: what follows the
    last [/]. *)
Fixpoint basename (path : string) : string :=
  match path with
  | String c p' => if has_char "/" path then basename p' else path
  | EmptyString => EmptyString
  end.

(** [s.split(sep)] for a separator of one character. *)
Fixpoint split (sep : ascii) (s : string) : list string :=
  match s with
  | String c s' =>
      if Ascii.eqb c sep then EmptyString :: split sep s'
      else match split sep s' with
           | p :: ps => String c p :: ps
           | [] => [String c EmptyString]
           end
  | EmptyString => [EmptyString]
  end.

(** [sep.join(parts)] *)
Fixpoint join (sep : string) (parts : list string) : string :=
  match parts with
  | [] => EmptyString
  | [p] => p
  | p :: ps => p +:+ sep +:+ join sep ps
  end.

(** [file_identity(path)] *)
Definition file_identity (path : string) : string :=
  let base := basename path in
  if has_char "." base then
    let parts := split "." base in
    if 1 <? length parts then join "." (removelast parts) else base
  else base.

(** The [file_info] dictionary of [process_file]. *)
Record file_info : Type := FileInfo {
  has_location : bool;
  has_scotland_name : bool;
  total_records : nat;
  records_with_location : nat;
  records_with_scotland : nat
}.

(** Calling [.get] on a value that is no mapping. *)
Inductive failure : Type := AttributeError.

Definition is_dict (v : json) : bool :=
  match v with JDict _ => true | _ => false end.

(** [d.get(k)] read as a value: a missing key gives [None]. *)
Definition get_or_none (items : list (string * json)) (k : string) : json :=
  match Dict.get items k with Some v => v | None => JNull end.

(** [x if isinstance(x, list) else []] *)
Definition list_or_empty (v : json) : list json :=
  match v with JList l => l | _ => [] end.

(** [[l.get("name") for l in locs if isinstance(l, dict)]] *)
Definition names (locs : list json) : list json :=
  omap (fun l => match l with
                 | JDict items => Some (get_or_none items "name")
                 | _ => None
                 end) locs.

(** [if p]: neither [None] nor the empty string. *)
Definition truthy (p : option string) : bool :=
  match p with
  | Some s => negb (String.eqb s "")
  | None => false
  end.

(** Lines 59-60: the cleaned names, then those that are truthy. *)
Definition populated (locs : list json) : list (option string) :=
  List.filter truthy (map clean_location_name (names locs)).

(** Lines 55-66: one record added to the counts. *)
Definition count_record (info : file_info) (rec : json) : failure + file_info :=
  match rec with
  | JDict items =>
      let locs := list_or_empty (get_or_none items "locations") in
      let located := negb (Nat.eqb (length (populated locs)) 0) in
      let scottish := existsb is_scotland (names locs) in
      inr (FileInfo
             (has_location info || located)
             (has_scotland_name info || scottish)
             (total_records info)
             (records_with_location info + (if located then 1 else 0))
             (records_with_scotland info + (if scottish then 1 else 0)))
  | _ => inl AttributeError
  end.

(** [for rec in records: ...] *)
Fixpoint count_records (info : file_info) (records : list json)
    : failure + file_info :=
  match records with
  | [] => inr info
  | rec :: rest =>
      match count_record info rec with
      | inl e => inl e
      | inr info' => count_records info' rest
      end
  end.

(** [process_file(filepath)] from line 43 on, applied to the value
    that [json.load] gave. Reading and parsing are not modelled: [None]
    stands for the return of line 41, whatever led to it, and an
    exception that line 40 does not catch is outside this function.
    The result [inr None] is [(None, True)], [inr (Some info)] is
    [(info, False)]. *)
Definition process_file (loaded : option json)
    : failure + option file_info :=
  match loaded with
  | None => inr None
  | Some (JDict items) =>
      let records := list_or_empty (get_or_none items "records") in
      match count_records (FileInfo false false (length records) 0 0) records with
      | inl e => inl e
      | inr info => inr (Some info)
      end
  | Some _ => inl AttributeError
  end.

End Location.

(** No foreign object at any depth: a value as [json.load] returns it. *)
Fixpoint json_only (v : json) : bool :=
  match v with
  | JOther _ => false
  | JList l => forallb json_only l
  | JDict items => forallb (fun kv => json_only kv.2) items
  | _ => true
  end.

(** Two records: one in Scotland, one with a placeholder for a name. *)
Definition two_places : json :=
  JDict [ ("records", JList [
    JDict [ ("locations", JList [ JDict [ ("name", JStr "Scotland.") ] ]) ];
    JDict [ ("locations", JList [ JDict [ ("name", JStr "n/a") ] ]) ] ]) ].

(** What the loop of [process_file] keeps true of the counts. *)
Definition counts_ok (info : Location.file_info) : Prop :=
  Location.records_with_scotland info <= Location.records_with_location info
  ∧ (Location.has_location info = true
     <-> 0 < Location.records_with_location info)
  ∧ (Location.has_scotland_name info = true
     <-> 0 < Location.records_with_scotland info).

(** ** The recursion limit *)


(** [n] lists, one inside the other, around [null]. *)
Definition nested_lists (n : nat) : json :=
  Nat.iter n (fun v => JList [v]) JNull.

(** * Properties *)

(** ** The scenario of the specification *)

Example ex_scenario :
  fst <$> anonymise_document scenario =
  Some (JDict [ ("contacts", JList [ JDict [ ("name", JStr "text1");
                                             ("email", JStr "email1") ] ]);
                ("id", JStr "abc-1");
                ("notes", JStr "see http://x.com") ]).
Proof. vm_compute. reflexivity. Qed.

(** ** The pseudonym dictionaries *)

Section Registry.

Implicit Types (m : gmap string string) (r : registry) (s t : string).

Lemma anonymise_string_classify s r :
  anonymise_string s r =
  let '(t, m) :=
    anonymise_value s (map_of (classify s) r) (prefix_of (classify s)) in
  (t, with_map (classify s) m r).
Proof.
  unfold anonymise_string, classify.
  destruct (Re.re_match EMAIL_REGEX s); [reflexivity|].
  destruct (Re.re_match PHONE_REGEX s); [reflexivity|].
  destruct (String.prefix "http" s); reflexivity.
Qed.

Lemma map_of_with_map c m r : map_of c (with_map c m r) = m.
Proof. destruct c; reflexivity. Qed.

Lemma map_of_with_map_ne c c' m r :
  c <> c' -> map_of c (with_map c' m r) = map_of c r.
Proof. destruct c, c'; intros H; try reflexivity; congruence. Qed.

Lemma anonymise_value_stored s m prefix :
  (anonymise_value s m prefix).2 !! s = Some (anonymise_value s m prefix).1.
Proof.
  unfold anonymise_value. destruct (m !! s) eqn:E; simpl; [exact E|].
  apply lookup_insert_eq.
Qed.

Lemma anonymise_value_keeps s m prefix s' t :
  m !! s' = Some t -> (anonymise_value s m prefix).2 !! s' = Some t.
Proof.
  intros H. unfold anonymise_value. destruct (m !! s) eqn:E; simpl; [exact H|].
  rewrite lookup_insert_ne; [exact H|]. intros ->. congruence.
Qed.

Lemma anonymise_value_known s m prefix t :
  m !! s = Some t -> anonymise_value s m prefix = (t, m).
Proof. intros H. unfold anonymise_value. rewrite H. reflexivity. Qed.

Lemma anonymise_string_fst s r :
  (anonymise_string s r).1 =
  (anonymise_value s (map_of (classify s) r) (prefix_of (classify s))).1.
Proof.
  rewrite anonymise_string_classify.
  destruct (anonymise_value _ _ _); reflexivity.
Qed.

Lemma anonymise_string_snd s r :
  (anonymise_string s r).2 =
  with_map (classify s)
    (anonymise_value s (map_of (classify s) r) (prefix_of (classify s))).2 r.
Proof.
  rewrite anonymise_string_classify.
  destruct (anonymise_value _ _ _); reflexivity.
Qed.

Lemma token_of_anonymise_string s r :
  token_of (anonymise_string s r).2 s = Some (anonymise_string s r).1.
Proof.
  unfold token_of. rewrite anonymise_string_snd, anonymise_string_fst.
  rewrite map_of_with_map. apply anonymise_value_stored.
Qed.

Lemma token_of_step s r s' t :
  token_of r s' = Some t -> token_of (anonymise_string s r).2 s' = Some t.
Proof.
  unfold token_of. intros H. rewrite anonymise_string_snd.
  destruct (decide (classify s' = classify s)) as [E|E].
  - rewrite E in *. rewrite map_of_with_map.
    apply anonymise_value_keeps, H.
  - rewrite map_of_with_map_ne by exact E. exact H.
Qed.

Lemma anonymise_string_known s r t :
  token_of r s = Some t -> anonymise_string s r = (t, r).
Proof.
  unfold token_of. intros H. rewrite anonymise_string_classify.
  rewrite (anonymise_value_known _ _ _ _ H).
  destruct r, (classify s); reflexivity.
Qed.

Lemma evolves_trans r1 r2 r3 : evolves r1 r2 -> evolves r2 r3 -> evolves r1 r3.
Proof.
  induction 1; intros H'; [exact H'|].
  eapply evolves_step. apply IHevolves, H'.
Qed.

Lemma evolves_one s r : evolves r (anonymise_string s r).2.
Proof. eapply evolves_step. apply evolves_refl. Qed.

Lemma token_of_evolves r r' s t :
  evolves r r' -> token_of r s = Some t -> token_of r' s = Some t.
Proof.
  induction 1; intros H'; [exact H'|].
  apply IHevolves, token_of_step, H'.
Qed.

End Registry.

(** ** The invariant of a run *)

Section Invariant.

Implicit Types (m : gmap string string) (r : registry) (s t : string).

Lemma token_eq_counter prefix (n n' : nat) :
  prefix +:+ pretty n = prefix +:+ pretty n' -> n = n'.
Proof.
  intros H. apply (inj (String.app prefix)) in H.
  apply (inj pretty) in H. exact H.
Qed.

Lemma map_ok_empty prefix : map_ok prefix ∅.
Proof.
  split; intros *; rewrite lookup_empty; discriminate.
Qed.

Lemma map_ok_anonymise_value prefix m s :
  map_ok prefix m -> map_ok prefix (anonymise_value s m prefix).2.
Proof.
  intros [Hform Hinj]. unfold anonymise_value.
  destruct (m !! s) eqn:E; simpl; [split; assumption|].
  assert (Hsize : size (<[s:=prefix +:+ pretty (size m + 1)]> m) = S (size m))
    by (apply map_size_insert_None, E).
  assert (Hfresh : ∀ s' , m !! s' = Some (prefix +:+ pretty (size m + 1)) -> False).
  { intros s' H'. destruct (Hform _ _ H') as (n & Hn & Ht).
    apply token_eq_counter in Ht. lia. }
  split.
  - intros s' t'. rewrite Hsize. destruct (decide (s = s')) as [->|Hne].
    + rewrite lookup_insert_eq. intros [= <-].
      exists (size m + 1). split; [lia|reflexivity].
    + rewrite lookup_insert_ne by exact Hne. intros H'.
      destruct (Hform _ _ H') as (n & Hn & Ht). exists n. split; [lia|exact Ht].
  - intros s1 s2 t'.
    destruct (decide (s1 = s)) as [->|H1], (decide (s2 = s)) as [->|H2];
      rewrite ?lookup_insert_eq, ?lookup_insert_ne by congruence.
    + reflexivity.
    + intros [= <-] H'. destruct (Hfresh _ H').
    + intros H' [= <-]. destruct (Hfresh _ H').
    + apply Hinj.
Qed.

Lemma registry_ok_empty : registry_ok empty_registry.
Proof. intros []; apply map_ok_empty. Qed.

Lemma registry_ok_step s r :
  registry_ok r -> registry_ok (anonymise_string s r).2.
Proof.
  intros H c. rewrite anonymise_string_snd.
  destruct (decide (c = classify s)) as [->|Hne].
  - rewrite map_of_with_map. apply map_ok_anonymise_value, H.
  - rewrite map_of_with_map_ne by exact Hne. apply H.
Qed.

Lemma registry_ok_evolves r r' :
  evolves r r' -> registry_ok r -> registry_ok r'.
Proof.
  induction 1; intros H'; [exact H'|].
  apply IHevolves, registry_ok_step, H'.
Qed.

Lemma reachable_ok r : reachable r -> registry_ok r.
Proof. intros H. eapply registry_ok_evolves; [exact H|apply registry_ok_empty]. Qed.

(** The prefixes differ in their first character. *)
Lemma prefix_of_clash c c' (n n' : nat) :
  prefix_of c +:+ pretty n = prefix_of c' +:+ pretty n' -> c = c'.
Proof.
  destruct c, c'; simpl; intros H; try reflexivity; discriminate H.
Qed.

(** Two distinct strings of a well-formed registry hold distinct
    tokens, whatever their categories. *)
Lemma token_of_inj r a b t :
  registry_ok r -> token_of r a = Some t -> token_of r b = Some t -> a = b.
Proof.
  unfold token_of. intros Hok Ha Hb.
  destruct (Hok (classify a)) as [Hfa Hia].
  destruct (Hok (classify b)) as [Hfb _].
  destruct (Hfa _ _ Ha) as (n & _ & Hn).
  destruct (Hfb _ _ Hb) as (n' & _ & Hn').
  assert (Hc : classify a = classify b)
    by (apply (prefix_of_clash _ _ n n'); congruence).
  rewrite <- Hc in Hb. eapply Hia; eassumption.
Qed.

End Invariant.

(** ** The two patterns *)

Section Patterns.

Lemma all_chars_app cls (s1 s2 : string) :
  all_chars cls (s1 +:+ s2) = all_chars cls s1 && all_chars cls s2.
Proof.
  induction s1 as [|c s1 IH]; simpl; [reflexivity|].
  rewrite IH. apply andb_assoc.
Qed.

(** A successful repetition consumed at least [least] characters of
    the class and the continuation accepted what is left. *)
Lemma rep_sound k least cls (s : string) :
  Re.rep k least cls s = true ->
  ∃ pre post, s = pre +:+ post ∧ all_chars cls pre = true
              ∧ least <= String.length pre ∧ k post = true.
Proof.
  revert least. induction s as [|c s IH]; intros least; simpl.
  - intros H. apply andb_prop in H as [Hl Hk].
    apply Nat.eqb_eq in Hl. exists "", "". simpl. repeat split; [lia|exact Hk].
  - intros H. apply orb_prop in H as [H|H].
    + apply andb_prop in H as [Hc H]. apply IH in H as (pre & post & -> & Hall & Hlen & Hk).
      exists (String c pre), post. simpl. rewrite Hc, Hall.
      repeat split; [lia|exact Hk].
    + apply andb_prop in H as [Hl Hk]. apply Nat.eqb_eq in Hl.
      exists "", (String c s). simpl. repeat split; [lia|exact Hk].
Qed.

(** A repetition succeeds on any split of that kind. *)
Lemma rep_complete k least cls (pre post : string) :
  all_chars cls pre = true -> least <= String.length pre -> k post = true ->
  Re.rep k least cls (pre +:+ post) = true.
Proof.
  revert least. induction pre as [|c pre IH]; intros least Hall Hlen Hk; simpl in *.
  - assert (least = 0) as -> by lia.
    destruct post; simpl; rewrite Hk; [reflexivity|apply orb_true_r].
  - apply andb_prop in Hall as [Hc Hall]. rewrite Hc. simpl.
    rewrite IH; [reflexivity|exact Hall|lia|exact Hk].
Qed.

(** An address needs an [@]: a string of digits is none. *)
Lemma digits_not_email (s : string) :
  digits_only s = true -> Re.re_match EMAIL_REGEX s = false.
Proof.
  intros Hd. destruct (Re.re_match EMAIL_REGEX s) eqn:E; [|reflexivity].
  unfold Re.re_match, EMAIL_REGEX in E. cbn [Re.run] in E.
  apply rep_sound in E as (pre & post & -> & _ & _ & Hk).
  unfold digits_only in Hd. rewrite all_chars_app in Hd.
  apply andb_prop in Hd as [_ Hd].
  destruct post as [|c post]; [discriminate|].
  apply andb_prop in Hk as [Hc _]. simpl in Hd.
  apply andb_prop in Hd as [Hd _].
  unfold is_char in Hc. apply Ascii.eqb_eq in Hc. subst c. discriminate.
Qed.

End Patterns.

(** ** Classification and tokens *)

(** C5. [anonymise_string] tries the four categories in the order email,
    phone, url, text and the first that matches decides: the token it
    returns is the prefix of that category followed by a counter that
    starts at 1, and only the dictionary of that category changes. A
    string of digits that the phone pattern matches is a phone number,
    not a text; ["12345678901"] is one. *)
Theorem classification_priority (s : string) (r : registry) :
  registry_ok r ->
  classify s =
    (if Re.re_match EMAIL_REGEX s then Email
     else if Re.re_match PHONE_REGEX s then Phone
     else if String.prefix "http" s then Url
     else Text)
  ∧ (∃ n : nat, 1 <= n
       ∧ (anonymise_string s r).1 = prefix_of (classify s) +:+ pretty n)
  ∧ token_of (anonymise_string s r).2 s = Some (anonymise_string s r).1
  ∧ (∀ c, c <> classify s -> map_of c (anonymise_string s r).2 = map_of c r)
  ∧ (anonymise_string s empty_registry).1 = prefix_of (classify s) +:+ "1"
  ∧ (digits_only s = true -> Re.re_match PHONE_REGEX s = true ->
     classify s = Phone)
  ∧ (anonymise_string "12345678901" empty_registry).1 = "phone1".
Proof.
  intros Hok. split; [reflexivity|]. split; [|split; [|split; [|split; [|split]]]].
  - pose proof (registry_ok_step s r Hok (classify s)) as [Hform _].
    pose proof (token_of_anonymise_string s r) as Ht.
    destruct (Hform _ _ Ht) as (n & Hn & E). exists n. split; [lia|exact E].
  - apply token_of_anonymise_string.
  - intros c Hc. rewrite anonymise_string_snd.
    apply map_of_with_map_ne, Hc.
  - rewrite anonymise_string_fst. destruct (classify s); reflexivity.
  - intros Hd Hp. unfold classify.
    rewrite (digits_not_email s Hd), Hp. reflexivity.
  - vm_compute. reflexivity.
Qed.

Lemma classification_priority_witness :
  registry_ok empty_registry
  ∧ digits_only "12345678901" = true
  ∧ Re.re_match PHONE_REGEX "12345678901" = true
  ∧ classify "12345678901" = Phone.
Proof.
  split; [apply registry_ok_empty|].
  split; [reflexivity|]. split; [reflexivity|].
  apply (classification_priority "12345678901" empty_registry registry_ok_empty);
    reflexivity.
Defined.

(** C6. Within one run the token of a string never changes: once
    [anonymise_string] has returned [t] for [s], every later call on
    [s] returns [t] again and leaves the registry as it is. *)
Theorem same_string_same_token (s t : string) (r r1 r2 : registry) :
  anonymise_string s r = (t, r1) ->
  evolves r1 r2 ->
  anonymise_string s r2 = (t, r2).
Proof.
  intros Hcall Hrun. apply anonymise_string_known.
  apply (token_of_evolves r1); [exact Hrun|].
  pose proof (token_of_anonymise_string s r) as H.
  rewrite Hcall in H. exact H.
Qed.

Lemma same_string_same_token_witness :
  let r1 := (anonymise_string "Jane Doe" empty_registry).2 in
  let r2 := (anonymise_string "jane@x.com" r1).2 in
  anonymise_string "Jane Doe" r2 =
  ((anonymise_string "Jane Doe" empty_registry).1, r2).
Proof.
  intros r1 r2.
  apply (same_string_same_token "Jane Doe" _ empty_registry r1 r2).
  - apply surjective_pairing.
  - apply evolves_one.
Defined.

(** Two calls of [anonymise_string] in one run, the second after the
    first: both tokens are held by the registry the second call leaves,
    which is well formed. *)
Lemma two_calls (r ra r2 rb : registry) (a b ta tb : string) :
  reachable r ->
  anonymise_string a r = (ta, ra) ->
  evolves ra r2 ->
  anonymise_string b r2 = (tb, rb) ->
  registry_ok r2 ∧ registry_ok rb
  ∧ token_of r2 a = Some ta ∧ token_of rb a = Some ta ∧ token_of rb b = Some tb.
Proof.
  intros Hr Ha Hrun Hb.
  pose proof (token_of_anonymise_string a r) as Hta. rewrite Ha in Hta. simpl in Hta.
  pose proof (token_of_anonymise_string b r2) as Htb. rewrite Hb in Htb. simpl in Htb.
  assert (Hra : registry_ok ra).
  { replace ra with (anonymise_string a r).2 by (rewrite Ha; reflexivity).
    apply registry_ok_step, reachable_ok, Hr. }
  assert (Hr2 : registry_ok r2) by (eapply registry_ok_evolves; eassumption).
  assert (Hrb : registry_ok rb).
  { replace rb with (anonymise_string b r2).2 by (rewrite Hb; reflexivity).
    apply registry_ok_step, Hr2. }
  assert (Ha2 : token_of r2 a = Some ta) by (eapply token_of_evolves; eassumption).
  split; [exact Hr2|]. split; [exact Hrb|]. split; [exact Ha2|].
  split; [|exact Htb].
  replace rb with (anonymise_string b r2).2 by (rewrite Hb; reflexivity).
  apply token_of_step, Ha2.
Qed.

(** C7. Within one run two distinct strings of the same category get
    distinct tokens: both are the prefix of the category followed by a
    counter, the counters differ, and a string that is new when it is
    anonymised gets a counter larger than that of every string
    anonymised before it. *)
Theorem distinct_strings_distinct_tokens
    (r ra r2 rb : registry) (a b ta tb : string) :
  reachable r ->
  anonymise_string a r = (ta, ra) ->
  evolves ra r2 ->
  anonymise_string b r2 = (tb, rb) ->
  a <> b ->
  classify a = classify b ->
  ta <> tb
  ∧ ∃ na nb : nat,
      ta = prefix_of (classify a) +:+ pretty na
      ∧ tb = prefix_of (classify a) +:+ pretty nb
      ∧ na <> nb
      ∧ (token_of r2 b = None -> na < nb).
Proof.
  intros Hr Ha Hrun Hb Hne Hc.
  destruct (two_calls _ _ _ _ _ _ _ _ Hr Ha Hrun Hb)
    as (Hr2 & Hrb & Ha2 & Hta & Htb).
  assert (Hdiff : ta <> tb).
  { intros <-. apply Hne. eapply token_of_inj; eassumption. }
  split; [exact Hdiff|].
  destruct (Hrb (classify a)) as [Hform _].
  destruct (Hform _ _ Hta) as (na & _ & Ena).
  unfold token_of in Htb. rewrite <- Hc in Htb.
  destruct (Hform _ _ Htb) as (nb & _ & Enb).
  exists na, nb. split; [exact Ena|]. split; [exact Enb|].
  split; [intros <-; congruence|].
  intros Hnew.
  destruct (Hr2 (classify a)) as [Hform2 _].
  destruct (Hform2 _ _ Ha2) as (n & Hn & En).
  assert (n = na) as -> by (apply (token_eq_counter (prefix_of (classify a))); congruence).
  pose proof (anonymise_string_fst b r2) as Hfst. rewrite Hb in Hfst. simpl in Hfst.
  unfold token_of in Hnew. unfold anonymise_value in Hfst.
  rewrite Hnew in Hfst. simpl in Hfst. rewrite <- Hc in Hfst.
  assert (nb = size (map_of (classify a) r2) + 1) as ->
    by (apply (token_eq_counter (prefix_of (classify a))); congruence).
  lia.
Qed.

Lemma distinct_strings_distinct_tokens_witness :
  (anonymise_string "Jane Doe" empty_registry).1
  <> (anonymise_string "John Roe" (anonymise_string "Jane Doe" empty_registry).2).1.
Proof.
  eapply (distinct_strings_distinct_tokens
            empty_registry _ _ _ "Jane Doe" "John Roe").
  - apply evolves_refl.
  - apply surjective_pairing.
  - apply evolves_refl.
  - apply surjective_pairing.
  - discriminate.
  - reflexivity.
Defined.

(** C10. Within one run two distinct strings get distinct tokens, of
    whatever categories they are: no prefix among ["email"], ["phone"],
    ["url"], ["text"] is a prefix of another, so tokens of different
    categories differ, and within a category the counters differ. *)
Theorem tokens_globally_unique
    (r ra r2 rb : registry) (a b ta tb : string) :
  reachable r ->
  anonymise_string a r = (ta, ra) ->
  evolves ra r2 ->
  anonymise_string b r2 = (tb, rb) ->
  a <> b ->
  ta <> tb
  ∧ (∀ c c', String.prefix (prefix_of c) (prefix_of c') = bool_decide (c = c'))
  ∧ (∀ c c' (n n' : nat),
       (prefix_of c +:+ pretty n =? prefix_of c' +:+ pretty n')%string
       = bool_decide (c = c') && bool_decide (n = n')).
Proof.
  intros Hr Ha Hrun Hb Hne.
  destruct (two_calls _ _ _ _ _ _ _ _ Hr Ha Hrun Hb)
    as (_ & Hrb & _ & Hta & Htb).
  split; [|split].
  - intros <-. apply Hne. eapply token_of_inj; eassumption.
  - intros [] []; reflexivity.
  - intros c c' n n'.
    destruct (String.eqb_spec (prefix_of c +:+ pretty n) (prefix_of c' +:+ pretty n'))
      as [E|E].
    + pose proof (prefix_of_clash _ _ _ _ E) as ->.
      apply token_eq_counter in E as ->.
      rewrite !bool_decide_eq_true_2 by reflexivity. reflexivity.
    + symmetry. apply andb_false_iff.
      destruct (decide (c = c')) as [->|Hc];
        [|left; apply bool_decide_eq_false_2, Hc].
      right. apply bool_decide_eq_false_2. intros ->. apply E. reflexivity.
Qed.

Lemma tokens_globally_unique_witness :
  (anonymise_string "jane@x.com" empty_registry).1
  <> (anonymise_string "Jane Doe" (anonymise_string "jane@x.com" empty_registry).2).1.
Proof.
  eapply (tokens_globally_unique
            empty_registry _ _ _ "jane@x.com" "Jane Doe").
  - apply evolves_refl.
  - apply surjective_pairing.
  - apply evolves_refl.
  - apply surjective_pairing.
  - discriminate.
Defined.

(** ** From the function to the relation *)

Section Soundness.

Lemma dict_set_fresh {A} (d : list (string * A)) k x :
  k ∉ Dict.keys d -> Dict.set d k x = d ++ [(k, x)].
Proof.
  induction d as [|[k' x'] d IH]; simpl; intros Hk; [reflexivity|].
  apply not_elem_of_cons in Hk as [Hne Hk].
  destruct (String.eqb_spec k' k) as [->|_]; [congruence|].
  f_equal. apply IH, Hk.
Qed.



(** The two tests of lines 78-81 as one. *)
Lemma limit_limited k v :
  limit k v = if limited k then first_only v else v.
Proof.
  unfold limit, limited.
  destruct (k =? "data_files")%string, (k =? "data_resources")%string;
    destruct v as [| | | | |l| |]; try reflexivity; destruct l; reflexivity.
Qed.

Lemma limited_block k : limited k = true -> mem (lower k) ANON_BLOCKS = true.
Proof.
  unfold limited. intros H. apply orb_prop in H as [H|H];
    apply String.eqb_eq in H; subst k; vm_compute; reflexivity.
Qed.

Lemma wf_first_only v : wf_json v = true -> wf_json (first_only v) = true.
Proof.
  destruct v as [| | | | |l| |]; try (intros; assumption).
  destruct l as [|x l]; simpl; [reflexivity|].
  intros H. apply andb_prop in H as [H _]. rewrite H. reflexivity.
Qed.

Lemma wf_limit k v : wf_json v = true -> wf_json (limit k v) = true.
Proof.
  intros H. rewrite limit_limited. destruct (limited k); [|exact H].
  apply wf_first_only, H.
Qed.

Variable n : nat.
Hypothesis IH :
  ∀ v pk force r out r',
    wf_json v = true ->
    anonymise_fuel n v pk force r = Some (out, r') -> anon force v r out r'.

Lemma entry_sound force k v r x r' :
  wf_json v = true ->
  entry (anonymise_fuel n) force k v r = Some (x, r') ->
  anon_entry force k v r x r'.
Proof.
  intros Hwf. unfold entry.
  destruct (force || mem (lower k) PIPELINE_FIELDS) eqn:E1.
  - assert (Hm : enter (mode_of force) k = Forced).
    { destruct force; simpl in *; [reflexivity|]. rewrite E1. reflexivity. }
    intros H. apply anon_entry_go; rewrite Hm; [discriminate|].
    destruct v; try (eapply IH; eassumption).
    unfold string_token in H. destruct (anonymise_string s r) as [t r1] eqn:Es.
    injection H as <- <-.
    replace t with (anonymise_string s r).1 by (rewrite Es; reflexivity).
    replace r1 with (anonymise_string s r).2 by (rewrite Es; reflexivity).
    apply anon_token.
  - apply orb_false_elim in E1 as [-> E1]. simpl.
    destruct (mem (lower k) ANON_BLOCKS) eqn:E2;
      [|destruct (mem (lower k) SKIP_KEYS) eqn:E3].
    + intros H. apply anon_entry_go; simpl; rewrite E1, E2; [discriminate|].
      eapply IH; eassumption.
    + intros [= <- <-]. apply anon_entry_copy. simpl. rewrite E1, E2, E3. reflexivity.
    + intros H. apply anon_entry_go; simpl; rewrite E1, E2, E3; [discriminate|].
      eapply IH; eassumption.
Qed.

Lemma dict_loop_sound force items :
  ∀ acc r out r',
    NoDup (Dict.keys acc ++ Dict.keys items) ->
    forallb (fun kv => wf_json kv.2) items = true ->
    dict_loop (anonymise_fuel n) force items acc r = Some (out, r') ->
    ∃ res, out = acc ++ res ∧ anon_items force items r res r'.
Proof.
  induction items as [|[k v] items IHitems]; intros acc r out r' Hnd Hwf; simpl.
  - intros [= <- <-]. exists []. split; [symmetry; apply app_nil_r|constructor].
  - simpl in Hwf. apply andb_prop in Hwf as [Hv Hwf].
    unfold bind. destruct (entry _ _ _ _ _) as [[x r1]|] eqn:Ex; [|discriminate].
    assert (Hk : k ∉ Dict.keys acc).
    { apply NoDup_app in Hnd as (_ & Hd & _). intros Hin.
      apply (Hd _ Hin). simpl. left. }
    rewrite (dict_set_fresh _ _ _ Hk). intros H.
    apply IHitems in H as (res & -> & Hres); [| |exact Hwf].
    + exists ((k, x) :: res). split; [rewrite <- app_assoc; reflexivity|].
      econstructor; [|exact Hres].
      eapply entry_sound; [apply wf_limit, Hv|exact Ex].
    + unfold Dict.keys in *. rewrite fmap_app, <- app_assoc. exact Hnd.
Qed.

Lemma for_each_sound pk force l :
  ∀ r l' r',
    forallb wf_json l = true ->
    for_each (fun x => anonymise_fuel n x pk force) l r = Some (l', r') ->
    anon_elems force l r l' r'.
Proof.
  induction l as [|x l IHl]; intros r l' r' Hwf; simpl.
  - intros [= <- <-]. constructor.
  - simpl in Hwf. apply andb_prop in Hwf as [Hx Hwf]. unfold bind.
    destruct (anonymise_fuel n x pk force r) as [[y r1]|] eqn:Ey; [|discriminate].
    destruct (for_each _ l r1) as [[ys r2]|] eqn:Eys; [|discriminate].
    intros [= <- <-]. econstructor; [eapply IH; eassumption|].
    apply IHl; assumption.
Qed.

End Soundness.

(** On a well-formed value the function computes the relation. *)
Lemma anonymise_fuel_sound n :
  ∀ v pk force r out r',
    wf_json v = true ->
    anonymise_fuel n v pk force r = Some (out, r') -> anon force v r out r'.
Proof.
  induction n as [|n IH]; intros v pk force r out r' Hwf; [discriminate|].
  destruct v; simpl; try (intros [= <- <-]; apply anon_scalar; reflexivity).
  - destruct force.
    + unfold string_token. destruct (anonymise_string s r) as [t r1] eqn:Es.
      intros [= <- <-].
      replace t with (anonymise_string s r).1 by (rewrite Es; reflexivity).
      replace r1 with (anonymise_string s r).2 by (rewrite Es; reflexivity).
      apply anon_token.
    + intros [= <- <-]. apply anon_plain.
  - unfold bind. destruct (for_each _ l r) as [[l' r1]|] eqn:El; [|discriminate].
    intros [= <- <-]. apply anon_list.
    eapply for_each_sound; [exact IH|exact Hwf|exact El].
  - unfold bind. destruct (dict_loop _ _ _ _ r) as [[res r1]|] eqn:Ed; [|discriminate].
    intros [= <- <-]. simpl in Hwf. apply andb_prop in Hwf as [Hnd Hwf].
    apply bool_decide_eq_true in Hnd.
    eapply dict_loop_sound in Ed as (res' & -> & H); [|exact IH|exact Hnd|exact Hwf].
    apply anon_dict, H.
Qed.

(** ** Termination: the fuel the recursion needs *)

Section Fuel.

Lemma height_elem (l : list json) x :
  x ∈ l -> height x <= foldr Nat.max 0 (map height l).
Proof.
  induction 1 as [x l|x y l _ IH]; simpl; lia.
Qed.

Lemma height_item (items : list (string * json)) kv :
  kv ∈ items -> height kv.2 <= foldr Nat.max 0 (map (fun kv => height kv.2) items).
Proof.
  induction 1 as [x l|x y l _ IH]; simpl; lia.
Qed.

Lemma height_limit k v : height (limit k v) <= height v.
Proof.
  rewrite limit_limited. destruct (limited k); [|lia].
  destruct v as [| | | | |l| |]; simpl; try lia.
  destruct l; simpl; lia.
Qed.

Lemma for_each_total {A B} (f : A -> M B) (l : list A) :
  (∀ x r, x ∈ l -> ∃ y r', f x r = Some (y, r')) ->
  ∀ r, ∃ l' r', for_each f l r = Some (l', r').
Proof.
  induction l as [|x l IHl]; intros Hf r; simpl; [eexists _, _; reflexivity|].
  unfold bind. destruct (Hf x r) as (y & r1 & ->); [left|].
  destruct (IHl (fun x r H => Hf x r (list_elem_of_further _ _ _ H)) r1)
    as (ys & r2 & ->).
  eexists _, _. reflexivity.
Qed.

Lemma entry_total rec force k v :
  (∀ pk force r, ∃ y r', rec v pk force r = Some (y, r')) ->
  ∀ r, ∃ y r', entry rec force k v r = Some (y, r').
Proof.
  intros Hrec r. unfold entry, string_token, ret.
  destruct (force || mem (lower k) PIPELINE_FIELDS).
  - destruct v; try apply Hrec.
    destruct (anonymise_string s r). eexists _, _. reflexivity.
  - destruct (mem (lower k) ANON_BLOCKS); [apply Hrec|].
    destruct (mem (lower k) SKIP_KEYS); [|apply Hrec].
    eexists _, _. reflexivity.
Qed.

Lemma dict_loop_total rec force items :
  (∀ k v pk force r, (k, v) ∈ items ->
                     ∃ y r', rec (limit k v) pk force r = Some (y, r')) ->
  ∀ acc r, ∃ out r', dict_loop rec force items acc r = Some (out, r').
Proof.
  induction items as [|[k v] items IHitems]; intros Hrec acc r; simpl;
    [eexists _, _; reflexivity|].
  unfold bind.
  destruct (entry_total rec force k (limit k v)
              (fun pk force r => Hrec k v pk force r (list_elem_of_here _ _)) r)
    as (x & r1 & ->).
  apply IHitems. intros k' v' pk' force' r' H.
  apply Hrec. right. exact H.
Qed.

(** Fuel above the height of the value is enough. *)
Lemma anonymise_fuel_total n :
  ∀ v pk force r,
    height v < n -> ∃ out r', anonymise_fuel n v pk force r = Some (out, r').
Proof.
  induction n as [|n IH]; intros v pk force r Hn; [lia|].
  destruct v; simpl; try (eexists _, _; reflexivity).
  - destruct force; [|eexists _, _; reflexivity].
    unfold string_token. destruct (anonymise_string s r).
    eexists _, _. reflexivity.
  - unfold bind.
    destruct (for_each_total (fun x => anonymise_fuel n x pk force) l) with (r := r)
      as (l' & r' & ->); [|eexists _, _; reflexivity].
    intros x r0 Hx. apply IH. simpl in Hn.
    pose proof (height_elem _ _ Hx). lia.
  - unfold bind.
    destruct (dict_loop_total (anonymise_fuel n) force items) with (acc := @nil (string * json)) (r := r)
      as (out & r' & ->); [|eexists _, _; reflexivity].
    intros k v pk' force' r0 Hkv. apply IH. simpl in Hn.
    pose proof (height_item _ _ Hkv). pose proof (height_limit k v).
    simpl in *. lia.
Qed.

Lemma for_each_mono {A B} (f g : A -> M B) (l : list A) :
  (∀ x r res, f x r = Some res -> g x r = Some res) ->
  ∀ r res, for_each f l r = Some res -> for_each g l r = Some res.
Proof.
  intros Hfg. induction l as [|x l IHl]; intros r res; simpl; [trivial|].
  unfold bind. destruct (f x r) as [[y r1]|] eqn:Ey; [|discriminate].
  rewrite (Hfg _ _ _ Ey).
  destruct (for_each f l r1) as [[ys r2]|] eqn:Eys; [|discriminate].
  rewrite (IHl _ _ Eys). trivial.
Qed.

Lemma entry_mono rec rec' force k v :
  (∀ v pk force r res, rec v pk force r = Some res -> rec' v pk force r = Some res) ->
  ∀ r res, entry rec force k v r = Some res -> entry rec' force k v r = Some res.
Proof.
  intros Hrec r res. unfold entry.
  destruct (force || mem (lower k) PIPELINE_FIELDS).
  - destruct v; try apply Hrec. trivial.
  - destruct (mem (lower k) ANON_BLOCKS); [apply Hrec|].
    destruct (mem (lower k) SKIP_KEYS); [trivial|apply Hrec].
Qed.

Lemma dict_loop_mono rec rec' force items :
  (∀ v pk force r res, rec v pk force r = Some res -> rec' v pk force r = Some res) ->
  ∀ acc r res,
    dict_loop rec force items acc r = Some res ->
    dict_loop rec' force items acc r = Some res.
Proof.
  intros Hrec. induction items as [|[k v] items IHitems]; intros acc r res; simpl;
    [trivial|].
  unfold bind. destruct (entry rec force k _ r) as [[x r1]|] eqn:Ex; [|discriminate].
  rewrite (entry_mono _ _ _ _ _ Hrec _ _ Ex). apply IHitems.
Qed.

Lemma anonymise_fuel_list n l pk force :
  anonymise_fuel (S n) (JList l) pk force =
  (do l' <- for_each (fun x => anonymise_fuel n x pk force) l;
   ret (JList l')).
Proof. reflexivity. Qed.

Lemma anonymise_fuel_dict n items pk force :
  anonymise_fuel (S n) (JDict items) pk force =
  (do new_obj <- dict_loop (anonymise_fuel n) force items [];
   ret (JDict new_obj)).
Proof. reflexivity. Qed.

Lemma anonymise_fuel_S n :
  ∀ v pk force r res,
    anonymise_fuel n v pk force r = Some res ->
    anonymise_fuel (S n) v pk force r = Some res.
Proof.
  induction n as [|n IH]; intros v pk force r res; [discriminate|].
  destruct v; try (intros H; exact H).
  - rewrite !anonymise_fuel_list. unfold bind.
    destruct (for_each _ l r) as [[l' r1]|] eqn:El; [|discriminate].
    rewrite (for_each_mono _ (fun x => anonymise_fuel (S n) x pk force) _
               (fun x => IH x pk force) _ _ El).
    trivial.
  - rewrite !anonymise_fuel_dict. unfold bind.
    destruct (dict_loop _ _ _ _ r) as [[out r1]|] eqn:Ed; [|discriminate].
    rewrite (dict_loop_mono _ (anonymise_fuel (S n)) _ _ IH _ _ _ Ed).
    trivial.
Qed.

Lemma anonymise_fuel_more n extra v pk force r res :
  anonymise_fuel n v pk force r = Some res ->
  anonymise_fuel (n + extra) v pk force r = Some res.
Proof.
  intros H. induction extra as [|m IHm]; [rewrite Nat.add_0_r; exact H|].
  rewrite Nat.add_succ_r. apply anonymise_fuel_S, IHm.
Qed.

End Fuel.


(** C9. A run is determined by the document and the registry it starts
    from: there is one output and one final registry, which every
    evaluation that is given enough fuel returns; in particular two runs
    on the same document from the empty registry agree on both. *)
Theorem anonymise_deterministic (doc : json) (pk : option string)
    (force : bool) (r : registry) :
  ∃ out r',
    anonymise doc pk force r = Some (out, r')
    ∧ (∀ extra, anonymise_fuel (S (height doc) + extra) doc pk force r
                = Some (out, r'))
    ∧ (∀ fuel out2 r2, anonymise_fuel fuel doc pk force r = Some (out2, r2) ->
                       out2 = out ∧ r2 = r').
Proof.
  destruct (anonymise_fuel_total (S (height doc)) doc pk force r)
    as (out & r' & H); [lia|].
  exists out, r'. split; [exact H|]. split.
  - intros extra. apply anonymise_fuel_more, H.
  - intros fuel out2 r2 H2.
    apply (anonymise_fuel_more _ (S (height doc))) in H2.
    apply (anonymise_fuel_more _ fuel) in H.
    rewrite Nat.add_comm, H2 in H. injection H as -> ->. split; reflexivity.
Qed.

Lemma anonymise_deterministic_witness :
  anonymise_fuel 4 scenario None false empty_registry
  = anonymise_fuel 9 scenario None false empty_registry.
Proof.
  destruct (anonymise_deterministic scenario None false empty_registry)
    as (out & r' & _ & Hall & _).
  transitivity (Some (out, r')); [exact (Hall 0)|symmetry; exact (Hall 5)].
Defined.

(** ** What the relation preserves *)

(** The registry of a call of the transform evolves as in a run. *)
Lemma anon_evolves_all :
  (∀ force v r out r', anon force v r out r' -> evolves r r')
  ∧ (∀ force l r l' r', anon_elems force l r l' r' -> evolves r r')
  ∧ (∀ force items r res r', anon_items force items r res r' -> evolves r r')
  ∧ (∀ force k v r x r', anon_entry force k v r x r' -> evolves r r').
Proof.
  apply anon_mutind; intros;
    eauto using evolves_refl, evolves_trans, evolves_one.
Qed.

Lemma anon_evolves force v r out r' : anon force v r out r' -> evolves r r'.
Proof. apply anon_evolves_all. Qed.

Lemma anon_elems_evolves force l r l' r' :
  anon_elems force l r l' r' -> evolves r r'.
Proof. apply anon_evolves_all. Qed.

Lemma anon_items_evolves force items r res r' :
  anon_items force items r res r' -> evolves r r'.
Proof. apply anon_evolves_all. Qed.

Lemma same_shape_refl_below n : ∀ v, height v < n -> same_shape v v.
Proof.
  induction n as [|n IH]; intros v Hn; [lia|].
  destruct v; try (apply shape_scalar; reflexivity).
  - apply shape_str.
  - apply shape_list, Forall_Forall2_diag, Forall_forall.
    intros x Hx. apply IH. pose proof (height_elem _ _ Hx). simpl in Hn. lia.
  - apply shape_dict, Forall_Forall2_diag, Forall_forall.
    intros kv Hkv. split; [reflexivity|left].
    apply IH. pose proof (height_item _ _ Hkv). simpl in *. lia.
Qed.

Lemma same_shape_refl v : same_shape v v.
Proof. apply (same_shape_refl_below (S (height v))). lia. Qed.

Lemma anon_shape_all :
  (∀ force v r out r', anon force v r out r' -> same_shape v out)
  ∧ (∀ force l r l' r',
       anon_elems force l r l' r' -> Forall2 same_shape l l')
  ∧ (∀ force items r res r',
       anon_items force items r res r' ->
       Forall2 (fun kv kx =>
                  kv.1 = kx.1
                  ∧ (same_shape kv.2 kx.2 ∨ same_shape (limit kv.1 kv.2) kx.2))
               items res)
  ∧ (∀ force k v r x r', anon_entry force k v r x r' -> same_shape v x).
Proof.
  apply anon_mutind; intros.
  - apply shape_dict. assumption.
  - apply shape_list. assumption.
  - apply shape_str.
  - apply shape_str.
  - apply shape_scalar. assumption.
  - constructor.
  - constructor; assumption.
  - constructor.
  - constructor; [|assumption]. split; [reflexivity|right; assumption].
  - assumption.
  - apply same_shape_refl.
Qed.

Lemma anon_shape force v r out r' : anon force v r out r' -> same_shape v out.
Proof. apply anon_shape_all. Qed.

Lemma same_shape_dict_keys items out :
  same_shape (JDict items) out ->
  ∃ res, out = JDict res ∧ Dict.keys res = Dict.keys items.
Proof.
  inversion 1 as [v Hs| | |items' res HF]; subst; [discriminate|].
  exists res. split; [reflexivity|]. clear H.
  unfold Dict.keys. induction HF as [|kv kx items res [Hk _] _ IH]; [reflexivity|].
  rewrite !fmap_cons. f_equal; [symmetry; exact Hk|exact IH].
Qed.

Lemma same_shape_list_length l out :
  same_shape (JList l) out -> ∃ l', out = JList l' ∧ length l' = length l.
Proof.
  inversion 1 as [v Hs| |l0 l' HF|]; subst; [discriminate|].
  exists l'. split; [reflexivity|]. symmetry. eapply Forall2_length, HF.
Qed.

(** Any fuel that returns gives the result of the transform. *)
Lemma anonymise_fuel_anonymise n v pk force r res :
  anonymise_fuel n v pk force r = Some res -> anonymise v pk force r = Some res.
Proof.
  intros H. unfold anonymise.
  destruct (anonymise_fuel_total (S (height v)) v pk force r) as (out & r' & E); [lia|].
  apply (anonymise_fuel_more _ (S (height v))) in H.
  pose proof (anonymise_fuel_more _ n _ _ _ _ _ E) as E'.
  rewrite Nat.add_comm, H in E'. rewrite E'. exact E.
Qed.

(** A call of the transform is a stretch of a run. *)
Lemma anonymise_evolves v pk force r out r' :
  wf_json v = true ->
  anonymise v pk force r = Some (out, r') -> evolves r r'.
Proof.
  intros Hwf H. eapply anon_evolves, anonymise_fuel_sound; eassumption.
Qed.

Lemma anonymise_anon v pk force r out r' :
  wf_json v = true ->
  anonymise v pk force r = Some (out, r') -> anon force v r out r'.
Proof. intros Hwf H. eapply anonymise_fuel_sound; eassumption. Qed.

(** C4. The output has the shape of the input: the same keys in the
    same order in every mapping, the same length and order in every
    sequence, and numbers, booleans and nulls as they were, whatever the
    flag; only the list under a limited key may be shorter. *)
Theorem shape_preserved (v : json) (pk : option string) (force : bool)
    (r : registry) (out : json) (r' : registry) :
  wf_json v = true ->
  anonymise v pk force r = Some (out, r') ->
  same_shape v out
  ∧ (∀ items, v = JDict items ->
              ∃ res, out = JDict res ∧ Dict.keys res = Dict.keys items)
  ∧ (∀ l, v = JList l -> ∃ l', out = JList l' ∧ length l' = length l)
  ∧ (is_scalar v = true -> out = v ∧ r' = r).
Proof.
  intros Hwf H.
  assert (Hs : same_shape v out).
  { eapply anon_shape, anonymise_anon; eassumption. }
  split; [exact Hs|]. split; [|split].
  - intros items ->. apply same_shape_dict_keys, Hs.
  - intros l ->. apply same_shape_list_length, Hs.
  - intros Hv. destruct v; try discriminate; injection H as <- <-; split; reflexivity.
Qed.

Lemma shape_preserved_witness :
  ∃ out r',
    anonymise_document scenario = Some (out, r') ∧ same_shape scenario out.
Proof.
  destruct (anonymise_fuel_total (S (height scenario)) scenario None false
              empty_registry) as (out & r' & E); [lia|].
  exists out, r'. split; [exact E|].
  apply (shape_preserved scenario None false empty_registry out r');
    [reflexivity|exact E].
Defined.

(** ** String leaves, path by path *)

Section Paths.

Lemma leaf_ok_evolves m r r' s t :
  evolves r r' -> leaf_ok m r s t -> leaf_ok m r' s t.
Proof.
  intros He. destruct m; simpl; trivial. apply token_of_evolves, He.
Qed.

Lemma mode_at_copied p : mode_at Copied p = Copied.
Proof. induction p as [|[k|i] p IH]; simpl; trivial. Qed.

Lemma mode_at_forced p : mode_at Forced p = Forced.
Proof. induction p as [|[k|i] p IH]; simpl; trivial. Qed.

Lemma kept_key k p : kept (Key k :: p) = true -> kept p = true.
Proof.
  simpl. destruct p as [|[k'|[|i]] p]; trivial.
  intros H. apply andb_prop in H as [_ H]. exact H.
Qed.

Lemma get_path_str s0 p s :
  get_path (JStr s0) p = Some (JStr s) -> p = [] ∧ s0 = s.
Proof.
  destruct p as [|[k|i] p]; simpl; [|discriminate..].
  intros [= ->]. split; reflexivity.
Qed.

Lemma get_path_scalar v p s :
  is_scalar v = true -> get_path v p = Some (JStr s) -> False.
Proof.
  intros Hv. destruct p as [|[k|i] p]; destruct v; simpl; discriminate.
Qed.

(** A kept path to a string reads the same in the cut value. *)
Lemma get_path_limit k v p s :
  kept (Key k :: p) = true ->
  get_path v p = Some (JStr s) ->
  get_path (limit k v) p = Some (JStr s).
Proof.
  rewrite limit_limited. destruct (limited k) eqn:El; [|trivial].
  destruct v as [| | | | |l| |]; trivial.
  destruct p as [|[k'|i] p]; simpl; [discriminate|discriminate|].
  rewrite El. destruct i as [|i]; [|discriminate].
  intros _. destruct l; trivial.
Qed.

Lemma anon_paths_all :
  (∀ force v r out r',
     anon force v r out r' ->
     ∀ p s, get_path v p = Some (JStr s) -> kept p = true ->
            ∃ t, get_path out p = Some (JStr t)
                 ∧ leaf_ok (mode_at (mode_of force) p) r' s t)
  ∧ (∀ force l r l' r',
       anon_elems force l r l' r' ->
       ∀ i x p s, l !! i = Some x ->
                  get_path x p = Some (JStr s) -> kept p = true ->
                  ∃ y t, l' !! i = Some y ∧ get_path y p = Some (JStr t)
                         ∧ leaf_ok (mode_at (mode_of force) p) r' s t)
  ∧ (∀ force items r res r',
       anon_items force items r res r' ->
       ∀ k v p s, Dict.get items k = Some v ->
                  get_path v p = Some (JStr s) -> kept (Key k :: p) = true ->
                  ∃ x t, Dict.get res k = Some x ∧ get_path x p = Some (JStr t)
                         ∧ leaf_ok (mode_at (enter (mode_of force) k) p) r' s t)
  ∧ (∀ force k v r x r',
       anon_entry force k v r x r' ->
       ∀ p s, get_path v p = Some (JStr s) -> kept p = true ->
              ∃ t, get_path x p = Some (JStr t)
                   ∧ leaf_ok (mode_at (enter (mode_of force) k) p) r' s t).
Proof.
  apply anon_mutind.
  - (* mapping *)
    intros force items res r r' _ IH p s Hp Hk.
    destruct p as [|[k|i] p]; simpl in Hp; [discriminate| |discriminate].
    destruct (Dict.get items k) as [v|] eqn:Ev; [|discriminate].
    destruct (IH k v p s Ev Hp Hk) as (x & t & Ex & Ht & Hok).
    exists t. simpl. rewrite Ex. split; assumption.
  - (* sequence *)
    intros force l l' r r' _ IH p s Hp Hk.
    destruct p as [|[k|i] p]; simpl in Hp; [discriminate|discriminate|].
    destruct (l !! i) as [x|] eqn:Ex; [|discriminate].
    destruct (IH i x p s Ex Hp Hk) as (y & t & Ey & Ht & Hok).
    exists t. simpl. rewrite Ey. split; assumption.
  - (* string, forced *)
    intros s0 r p s Hp _. apply get_path_str in Hp as [-> ->].
    eexists. split; [reflexivity|]. apply token_of_anonymise_string.
  - (* string, not forced *)
    intros s0 r p s Hp _. apply get_path_str in Hp as [-> ->].
    eexists. split; reflexivity.
  - (* scalar *)
    intros force v r Hv p s Hp _. destruct (get_path_scalar _ _ _ Hv Hp).
  - (* no element *)
    intros force r i x p s Hi. discriminate.
  - (* first element, other elements *)
    intros force x xs y ys r r1 r2 _ IHx Hrest IHxs i x' p s Hi Hp Hk.
    destruct i as [|i]; simpl in Hi.
    + injection Hi as <-. destruct (IHx p s Hp Hk) as (t & Ht & Hok).
      exists y, t. split; [reflexivity|]. split; [exact Ht|].
      eapply leaf_ok_evolves; [eapply anon_elems_evolves, Hrest|exact Hok].
    + destruct (IHxs i x' p s Hi Hp Hk) as (y' & t & Ey & Ht & Hok).
      exists y', t. split; [exact Ey|]. split; assumption.
  - (* no item *)
    intros force r k v p s Hg. discriminate.
  - (* first item, other items *)
    intros force k0 v0 x items res r r1 r2 _ IHe Hrest IHitems k v p s Hg Hp Hk.
    simpl in Hg. simpl. destruct (String.eqb_spec k0 k) as [->|Hne].
    + injection Hg as <-.
      destruct (IHe p s (get_path_limit _ _ _ _ Hk Hp) (kept_key _ _ Hk))
        as (t & Ht & Hok).
      exists x, t. split; [reflexivity|]. split; [exact Ht|].
      eapply leaf_ok_evolves; [eapply anon_items_evolves, Hrest|exact Hok].
    + apply (IHitems k v p s Hg Hp Hk).
  - (* entry, recursive call *)
    intros force k v r x r' Hm _ IH p s Hp Hk.
    destruct (IH p s Hp Hk) as (t & Ht & Hok). exists t. split; [exact Ht|].
    destruct (enter (mode_of force) k); [exact Hok|exact Hok|congruence].
  - (* entry, copied *)
    intros force k v r Hm p s Hp _. exists s. split; [exact Hp|].
    rewrite Hm, mode_at_copied. reflexivity.
Qed.

Lemma anon_paths force v r out r' p s :
  anon force v r out r' ->
  get_path v p = Some (JStr s) -> kept p = true ->
  ∃ t, get_path out p = Some (JStr t)
       ∧ leaf_ok (mode_at (mode_of force) p) r' s t.
Proof.
  destruct anon_paths_all as [Hall _]. intros H. apply (Hall _ _ _ _ _ H).
Qed.

End Paths.

(** ** Force propagation *)

Section Force.

Lemma mode_at_app m p1 p2 : mode_at m (p1 ++ p2) = mode_at (mode_at m p1) p2.
Proof.
  revert m. induction p1 as [|[k|i] p1 IH]; intros m; simpl; trivial.
Qed.

Lemma path_keys_key k p : path_keys (Key k :: p) = k :: path_keys p.
Proof. reflexivity. Qed.


(** Without a skip key on the way nothing is copied. *)
Lemma mode_at_no_skip p :
  ∀ m, m <> Copied ->
       Forall (fun k => mem (lower k) SKIP_KEYS = false) (path_keys p) ->
       mode_at m p <> Copied.
Proof.
  induction p as [|[k|i] p IH]; intros m Hm Hp; simpl; [exact Hm| |].
  - rewrite path_keys_key in Hp. apply Forall_cons in Hp as [Hk Hp].
    apply IH; [|exact Hp].
    destruct m; simpl; try congruence.
    destruct (mem (lower k) PIPELINE_FIELDS); [discriminate|].
    destruct (mem (lower k) ANON_BLOCKS); [discriminate|].
    rewrite Hk. discriminate.
  - apply IH; assumption.
Qed.

Lemma enter_block m k :
  m <> Copied -> mem (lower k) ANON_BLOCKS = true -> enter m k = Forced.
Proof.
  intros Hm Hk. destruct m; simpl; [reflexivity| |congruence].
  rewrite Hk. destruct (mem (lower k) PIPELINE_FIELDS); reflexivity.
Qed.

(** Without a forcing key on the way nothing is forced and nothing cut. *)
Lemma mode_at_no_force p :
  ∀ m, m <> Forced ->
       Forall (fun k => mem (lower k) ANON_BLOCKS = false
                        ∧ mem (lower k) PIPELINE_FIELDS = false) (path_keys p) ->
       mode_at m p <> Forced ∧ kept p = true.
Proof.
  induction p as [|[k|i] p IH]; intros m Hm Hp; [split; [exact Hm|reflexivity]| |].
  - rewrite path_keys_key in Hp. apply Forall_cons in Hp as [[Hb Hf] Hp].
    assert (Hm' : enter m k <> Forced).
    { destruct m; simpl; try congruence. rewrite Hf, Hb.
      destruct (mem (lower k) SKIP_KEYS); discriminate. }
    destruct (IH _ Hm' Hp) as [IH1 IH2]. split; [exact IH1|].
    assert (Hl : limited k = false).
    { destruct (limited k) eqn:El; [|reflexivity].
      apply limited_block in El. congruence. }
    simpl. rewrite Hl. simpl.
    destruct p as [|[k'|[|i]] p]; exact IH2.
  - simpl. apply IH; assumption.
Qed.

Lemma leaf_ok_unforced m r s t : m <> Forced -> leaf_ok m r s t -> t = s.
Proof. destruct m; simpl; trivial. congruence. Qed.

End Force.

(** C3, as the code has it. At a root call with [force = false] on a
    well-formed value: a string leaf under a force-block key, with no
    skip key on its path and on a path that the truncation keeps, is
    replaced at its place by the token the registry holds for it, a
    category prefix followed by a counter; a string leaf with no
    force-block key and no force field name on its path is returned
    unchanged. *)
Theorem force_propagation (v : json) (pk : option string) (r : registry)
    (out : json) (r' : registry) :
  wf_json v = true ->
  registry_ok r ->
  anonymise v pk false r = Some (out, r') ->
  (∀ p1 k p2 s,
     get_path v (p1 ++ Key k :: p2) = Some (JStr s) ->
     mem (lower k) ANON_BLOCKS = true ->
     Forall (fun k' => mem (lower k') SKIP_KEYS = false)
            (path_keys (p1 ++ Key k :: p2)) ->
     kept (p1 ++ Key k :: p2) = true ->
     ∃ t (n : nat),
       get_path out (p1 ++ Key k :: p2) = Some (JStr t)
       ∧ token_of r' s = Some t
       ∧ 1 <= n ∧ t = prefix_of (classify s) +:+ pretty n)
  ∧ (∀ p s,
       get_path v p = Some (JStr s) ->
       Forall (fun k => mem (lower k) ANON_BLOCKS = false
                        ∧ mem (lower k) PIPELINE_FIELDS = false) (path_keys p) ->
       get_path out p = Some (JStr s)).
Proof.
  intros Hwf Hok H. pose proof (anonymise_anon _ _ _ _ _ _ Hwf H) as Ha.
  split.
  - intros p1 k p2 s Hp Hk Hskip Hkept.
    destruct (anon_paths _ _ _ _ _ _ _ Ha Hp Hkept) as (t & Ht & Hleaf).
    assert (Hm : mode_at (mode_of false) (p1 ++ Key k :: p2) = Forced).
    { rewrite mode_at_app. simpl.
      rewrite (enter_block _ k); [apply mode_at_forced| |exact Hk].
      apply mode_at_no_skip; [discriminate|].
      unfold path_keys in Hskip. rewrite omap_app in Hskip.
      apply Forall_app in Hskip as [Hskip _]. exact Hskip. }
    rewrite Hm in Hleaf. simpl in Hleaf.
    assert (Hok' : registry_ok r')
      by (eapply registry_ok_evolves; [eapply anon_evolves, Ha|exact Hok]).
    destruct (Hok' (classify s)) as [Hform _].
    destruct (Hform _ _ Hleaf) as (n & Hn & En).
    exists t, n. split; [exact Ht|]. split; [exact Hleaf|]. split; [lia|exact En].
  - intros p s Hp Hfree.
    destruct (mode_at_no_force p Unforced) as [Hm Hkept]; [discriminate|exact Hfree|].
    destruct (anon_paths _ _ _ _ _ _ _ Ha Hp Hkept) as (t & Ht & Hleaf).
    apply leaf_ok_unforced in Hleaf as ->; [exact Ht|exact Hm].
Qed.

Lemma force_propagation_witness :
  ∃ out r',
    anonymise_document scenario = Some (out, r')
    ∧ (∃ t (n : nat),
         get_path out [Key "contacts"; Idx 0; Key "name"] = Some (JStr t)
         ∧ token_of r' "Jane Doe" = Some t
         ∧ 1 <= n ∧ t = "text" +:+ pretty n)
    ∧ get_path out [Key "notes"] = Some (JStr "see http://x.com").
Proof.
  destruct (anonymise_fuel_total (S (height scenario)) scenario None false
              empty_registry) as (out & r' & E); [lia|].
  exists out, r'. split; [exact E|].
  destruct (force_propagation scenario None empty_registry out r'
              eq_refl registry_ok_empty E) as [Hforced Hfree].
  split.
  - apply (Hforced [] "contacts" [Idx 0; Key "name"] "Jane Doe");
      [reflexivity|reflexivity|repeat constructor|reflexivity].
  - apply (Hfree [Key "notes"] "see http://x.com"); [reflexivity|].
    repeat constructor.
Defined.

Example ex_skipped_block :
  anonymise_document skipped_block = Some (skipped_block, empty_registry).
Proof. reflexivity. Qed.

(** C3 as stated fails: not every string under a force-block key is
    replaced by its token. In [skipped_block] the string under
    ["contacts"] stays as it is, since that key sits in the skipped
    block ["location"], and the registry stays empty. *)
Lemma force_propagation_counterexample :
  ~ (∀ (v : json) (pk : option string) (r : registry) (out : json)
       (r' : registry) (p1 : list step) (k : string) (p2 : list step)
       (s : string),
       wf_json v = true ->
       anonymise v pk false r = Some (out, r') ->
       get_path v (p1 ++ Key k :: p2) = Some (JStr s) ->
       mem (lower k) ANON_BLOCKS = true ->
       ∃ t, get_path out (p1 ++ Key k :: p2) = Some (JStr t)
            ∧ token_of r' s = Some t).
Proof.
  intros Hclaim.
  destruct (Hclaim skipped_block None empty_registry skipped_block
              empty_registry [Key "location"] "contacts" [] "Jane Doe"
              eq_refl ex_skipped_block eq_refl eq_refl)
    as (t & _ & Ht).
  discriminate Ht.
Qed.

(** ** The items of a mapping *)

Section Items.

Variable rec : json -> option string -> bool -> M json.
Variable force : bool.

Lemma dict_loop_items items :
  ∀ acc r out r',
    NoDup (Dict.keys acc ++ Dict.keys items) ->
    dict_loop rec force items acc r = Some (out, r') ->
    ∃ res, out = acc ++ res ∧ Forall2 (stored rec force) items res.
Proof.
  induction items as [|[k v] items IHitems]; intros acc r out r' Hnd; simpl.
  - intros [= <- <-]. exists []. split; [symmetry; apply app_nil_r|constructor].
  - unfold bind. destruct (entry _ _ _ _ _) as [[x r1]|] eqn:Ex; [|discriminate].
    assert (Hk : k ∉ Dict.keys acc).
    { apply NoDup_app in Hnd as (_ & Hd & _). intros Hin.
      apply (Hd _ Hin). simpl. left. }
    rewrite (dict_set_fresh _ _ _ Hk). intros H.
    apply IHitems in H as (res & -> & Hres).
    + exists ((k, x) :: res). split; [rewrite <- app_assoc; reflexivity|].
      constructor; [|exact Hres]. split; [reflexivity|]. exists r, r1. exact Ex.
    + unfold Dict.keys in *. rewrite fmap_app, <- app_assoc. exact Hnd.
Qed.

Lemma dict_get_stored items res k v :
  Forall2 (stored rec force) items res ->
  Dict.get items k = Some v ->
  ∃ x r1 r2, Dict.get res k = Some x
             ∧ entry rec force k (limit k v) r1 = Some (x, r2).
Proof.
  induction 1 as [|[k0 v0] [k1 x1] items res [Hk (r1 & r2 & He)] _ IH]; simpl;
    [discriminate|].
  simpl in Hk, He. subst k1.
  destruct (String.eqb_spec k0 k) as [->|_]; [|exact IH].
  intros [= <-]. exists x1, r1, r2. split; [reflexivity|exact He].
Qed.

End Items.

(** The value a mapping stores under one of its keys. *)
Lemma anonymise_dict_entry items k v pk force r out r' :
  wf_json (JDict items) = true ->
  anonymise (JDict items) pk force r = Some (out, r') ->
  Dict.get items k = Some v ->
  ∃ n x r1 r2,
    get_path out [Key k] = Some x
    ∧ entry (anonymise_fuel n) force k (limit k v) r1 = Some (x, r2).
Proof.
  intros Hwf H Hg. unfold anonymise in H. rewrite anonymise_fuel_dict in H.
  unfold bind in H.
  destruct (dict_loop _ _ _ _ r) as [[res r1]|] eqn:Ed; [|discriminate].
  injection H as <- <-. simpl in Hwf. apply andb_prop in Hwf as [Hnd _].
  apply bool_decide_eq_true in Hnd.
  apply dict_loop_items in Ed as (res' & -> & HF); [|exact Hnd].
  destruct (dict_get_stored _ _ _ _ _ _ HF Hg) as (x & r1' & r2 & Hx & He).
  exists (height (JDict items)), x, r1', r2. simpl. rewrite Hx.
  split; [reflexivity|exact He].
Qed.

(** The three tables share no name. *)
Lemma skip_not_forcing s :
  mem s SKIP_KEYS = true ->
  mem s PIPELINE_FIELDS = false ∧ mem s ANON_BLOCKS = false.
Proof.
  unfold mem at 1. intros H. apply bool_decide_eq_true in H.
  unfold SKIP_KEYS in H. rewrite !elem_of_union, !elem_of_singleton in H.
  destruct H as [[-> | ->] | ->]; split; reflexivity.
Qed.

(** Without [force], the value under a skip key is copied as it is. *)
Lemma skip_kept_unforced items k v pk r out r' :
  wf_json (JDict items) = true ->
  anonymise (JDict items) pk false r = Some (out, r') ->
  Dict.get items k = Some v ->
  mem (lower k) SKIP_KEYS = true ->
  get_path out [Key k] = Some v.
Proof.
  intros Hwf H Hg Hs.
  destruct (anonymise_dict_entry _ _ _ _ _ _ _ _ Hwf H Hg)
    as (n & x & r1 & r2 & Hx & He).
  assert (Hl : limited k = false).
  { destruct (limited k) eqn:El; [|reflexivity].
    unfold limited in El. apply orb_prop in El as [El|El];
      apply String.eqb_eq in El; subst k; vm_compute in Hs; discriminate. }
  rewrite limit_limited, Hl in He. unfold entry in He.
  destruct (skip_not_forcing _ Hs) as [E1 E2].
  rewrite E1, E2, Hs in He. injection He as <- _. exact Hx.
Qed.

(** C1, where the code departs from it. ["id"] is a skip key, yet under
    [force] its string is replaced: inside the force block ["contacts"]
    at a root call, and in a direct call with [force = true]. *)
Theorem skip_lost_under_force :
  mem (lower "id") SKIP_KEYS = true
  ∧ fst <$> anonymise_document forced_skip
    = Some (JDict [ ("contacts", JList [ JDict [ ("id", JStr "text1") ] ]) ])
  ∧ fst <$> anonymise (JDict [ ("id", JStr "abc-1") ]) None true empty_registry
    = Some (JDict [ ("id", JStr "text1") ])
  ∧ fst <$> anonymise (JDict [ ("id", JStr "abc-1") ]) None false empty_registry
    = Some (JDict [ ("id", JStr "abc-1") ]).
Proof. repeat split. Qed.

(** ** The truncation policy *)


Example ex_capital_files :
  anonymise_document capital_files = Some (capital_files, empty_registry).
Proof. reflexivity. Qed.

Example ex_two_files :
  fst <$> anonymise_document two_files
  = Some (JDict [ ("data_files", JList [ JStr "text1" ]) ]).
Proof. reflexivity. Qed.

(** C2 as stated fails: a key that names ["data_files"] only once it is
    lowered is not limited. In [capital_files] the list under
    ["Data_Files"] keeps its two elements. (Under ["data_files"] itself
    the element that is left is the transform of the first element, see
    [ex_two_files].) *)
Lemma limited_list_counterexample :
  ~ (∀ (items : list (string * json)) (k : string) (l : list json)
       (pk : option string) (force : bool) (r : registry) (out : json)
       (r' : registry),
       wf_json (JDict items) = true ->
       anonymise (JDict items) pk force r = Some (out, r') ->
       Dict.get items k = Some (JList l) ->
       lower k = "data_files" ∨ lower k = "data_resources" ->
       ∃ l', get_path out [Key k] = Some (JList l')
             ∧ length l' = Nat.min 1 (length l)).
Proof.
  intros Hclaim.
  destruct (Hclaim [ ("Data_Files", JList [ JInt 1; JInt 2 ]) ] "Data_Files"
              [ JInt 1; JInt 2 ] None false empty_registry capital_files
              empty_registry eq_refl ex_capital_files eq_refl
              (or_introl eq_refl))
    as (l' & Hl' & Hlen).
  injection Hl' as <-. discriminate Hlen.
Qed.

(** * More of the script *)

(** ** What the two patterns accept *)

Section Accepts.

Lemma length_nonempty (a : string) : a <> "" -> 1 <= String.length a.
Proof. destruct a; [congruence|simpl; lia]. Qed.

Lemma nonempty_length (a : string) : 1 <= String.length a -> a <> "".
Proof. destruct a; simpl; [lia|discriminate]. Qed.

(** X1. [EMAIL_REGEX.match(s)] succeeds exactly when [s] starts with a
    non-empty run without [@], an [@], a non-empty run without [@], a
    dot and one more non-empty run without [@]; what follows is not
    looked at. *)
Theorem email_match_shape (s : string) :
  Re.re_match EMAIL_REGEX s = true
  <-> ∃ a b c rest : string,
        s = a +:+ "@" +:+ b +:+ "." +:+ c +:+ rest
        ∧ a <> "" ∧ b <> "" ∧ c <> ""
        ∧ all_chars (not_char "@"%char) a = true
        ∧ all_chars (not_char "@"%char) b = true
        ∧ all_chars (not_char "@"%char) c = true.
Proof.
  unfold Re.re_match, EMAIL_REGEX. cbn [Re.run]. split.
  - intros H. apply rep_sound in H as (a & s1 & -> & Ha & Hla & H).
    destruct s1 as [|x s1]; [discriminate|].
    apply andb_prop in H as [Hx H]. apply Ascii.eqb_eq in Hx. subst x.
    apply rep_sound in H as (b & s2 & -> & Hb & Hlb & H).
    destruct s2 as [|y s2]; [discriminate|].
    apply andb_prop in H as [Hy H]. apply Ascii.eqb_eq in Hy. subst y.
    apply rep_sound in H as (c & rest & -> & Hc & Hlc & _).
    exists a, b, c, rest.
    repeat (split; [first [reflexivity | assumption | apply nonempty_length; assumption]|]).
    assumption.
  - intros (a & b & c & rest & -> & Ha & Hb & Hc & Hna & Hnb & Hnc).
    apply rep_complete; [exact Hna|apply length_nonempty, Ha|].
    change ("@" +:+ b +:+ "." +:+ c +:+ rest)
      with (String "@"%char (b +:+ String "."%char (c +:+ rest))).
    cbv beta iota. apply andb_true_intro. split; [reflexivity|].
    apply rep_complete; [exact Hnb|apply length_nonempty, Hb|].
    apply andb_true_intro. split; [reflexivity|].
    apply rep_complete; [exact Hnc|apply length_nonempty, Hc|reflexivity].
Qed.

Lemma run_opt cls p (s : string) :
  Re.run (Re.Opt cls :: p) s
  = match s with
    | String c s' => cls c && Re.run p s'
    | EmptyString => false
    end || Re.run p s.
Proof. destruct s; reflexivity. Qed.

(** X2. [PHONE_REGEX.match(s)] succeeds exactly when [s] starts with an
    optional [+], a digit, at least six characters among digits, white
    space, [-], [(] and [)], and one more digit; what follows is not
    looked at. *)
Theorem phone_match_shape (s : string) :
  Re.re_match PHONE_REGEX s = true
  <-> ∃ (plus : string) (d : ascii) (body : string) (d' : ascii)
        (rest : string),
        s = plus +:+ String d (body +:+ String d' rest)
        ∧ (plus = "" ∨ plus = "+")
        ∧ is_digit d = true ∧ is_digit d' = true
        ∧ all_chars phone_body body = true
        ∧ 6 <= String.length body.
Proof.
  unfold Re.re_match, PHONE_REGEX.
  assert (Hcore : ∀ s0,
            Re.run [Re.One is_digit; Re.Rep 6 phone_body; Re.One is_digit] s0 = true
            <-> ∃ d body d' rest,
                  s0 = String d (body +:+ String d' rest)
                  ∧ is_digit d = true ∧ is_digit d' = true
                  ∧ all_chars phone_body body = true
                  ∧ 6 <= String.length body).
  { intros s0. cbn [Re.run]. split.
    - destruct s0 as [|d s0]; [discriminate|]. intros H.
      apply andb_prop in H as [Hd H].
      apply rep_sound in H as (body & s1 & -> & Hb & Hl & H).
      destruct s1 as [|d' rest]; [discriminate|].
      apply andb_prop in H as [Hd' _].
      exists d, body, d', rest. repeat split; assumption.
    - intros (d & body & d' & rest & -> & Hd & Hd' & Hb & Hl).
      rewrite Hd. simpl. apply rep_complete; [exact Hb|exact Hl|].
      rewrite Hd'. reflexivity. }
  rewrite run_opt. split.
  - intros H. apply orb_prop in H as [H|H].
    + destruct s as [|c s']; [discriminate|].
      apply andb_prop in H as [Hc H]. apply Ascii.eqb_eq in Hc. subst c.
      apply Hcore in H as (d & body & d' & rest & -> & Hd & Hd' & Hb & Hl).
      exists "+", d, body, d', rest. repeat split; try assumption. right. reflexivity.
    + apply Hcore in H as (d & body & d' & rest & -> & Hd & Hd' & Hb & Hl).
      exists "", d, body, d', rest. repeat split; try assumption. left. reflexivity.
  - intros (plus & d & body & d' & rest & -> & Hplus & Hd & Hd' & Hb & Hl).
    assert (Hrun : Re.run [Re.One is_digit; Re.Rep 6 phone_body; Re.One is_digit]
                     (String d (body +:+ String d' rest)) = true).
    { apply Hcore. exists d, body, d', rest. repeat split; assumption. }
    destruct Hplus as [-> | ->].
    + change ("" +:+ String d (body +:+ String d' rest))
        with (String d (body +:+ String d' rest)).
      rewrite Hrun. apply orb_true_r.
    + change ("+" +:+ String d (body +:+ String d' rest))
        with (String "+"%char (String d (body +:+ String d' rest))).
      cbv beta iota. rewrite Hrun. reflexivity.
Qed.

End Accepts.

Lemma email_match_shape_witness :
  Re.re_match EMAIL_REGEX "jane@x.com and more" = true.
Proof.
  apply email_match_shape. exists "jane", "x", "com", " and more".
  repeat split; discriminate.
Defined.

Lemma phone_match_shape_witness :
  Re.re_match PHONE_REGEX "+44 (0)131 496-0000 ext 2" = true.
Proof.
  apply phone_match_shape.
  exists "+", "4"%char, "4 (0)131 496-000", "0"%char, " ext 2".
  split; [reflexivity|]. split; [right; reflexivity|].
  split; [reflexivity|]. split; [reflexivity|]. split; [reflexivity|].
  simpl. lia.
Defined.

(** ** Which strings fall into which category *)

Section Categories.

(** An address has an [@]. *)
Lemma email_match_at (s : string) :
  Re.re_match EMAIL_REGEX s = true ->
  ∃ a rest, s = a +:+ String "@"%char rest.
Proof.
  unfold Re.re_match, EMAIL_REGEX. cbn [Re.run]. intros H.
  apply rep_sound in H as (a & s1 & -> & _ & _ & H).
  destruct s1 as [|x s1]; [discriminate|].
  apply andb_prop in H as [Hx _]. apply Ascii.eqb_eq in Hx. subst x.
  exists a, s1. reflexivity.
Qed.

(** A phone number starts with [+] or a digit. *)
Lemma phone_match_first (s : string) :
  Re.re_match PHONE_REGEX s = true ->
  ∃ c s', s = String c s' ∧ (c = "+"%char ∨ is_digit c = true).
Proof.
  unfold Re.re_match, PHONE_REGEX. rewrite run_opt. intros H.
  destruct s as [|c s']; [discriminate|]. exists c, s'. split; [reflexivity|].
  apply orb_prop in H as [H|H].
  - apply andb_prop in H as [Hc _]. apply Ascii.eqb_eq in Hc. left. congruence.
  - cbn [Re.run] in H. apply andb_prop in H as [Hc _]. right. exact Hc.
Qed.

Lemma prefix_http_first (s : string) :
  String.prefix "http" s = true -> ∃ s', s = String "h"%char s'.
Proof.
  destruct s as [|c s']; [discriminate|].
  change (String.prefix "http" (String c s'))
    with (if Ascii.ascii_dec "h" c then String.prefix "ttp" s' else false).
  destruct (Ascii.ascii_dec "h" c) as [<-|Hne]; [|discriminate].
  intros _. exists s'. reflexivity.
Qed.

Lemma digit_not_space c : is_digit c = true -> is_space c = false.
Proof.
  destruct c as [[] [] [] [] [] [] [] []]; vm_compute; congruence.
Qed.

(** X3. The empty string and every string of white space only are
    texts: none of the three tests accepts them. *)
Theorem blank_is_text (s : string) :
  all_chars is_space s = true -> classify s = Text.
Proof.
  intros Hs. unfold classify.
  destruct (Re.re_match EMAIL_REGEX s) eqn:E1.
  { apply email_match_at in E1 as (a & rest & ->).
    rewrite all_chars_app in Hs. apply andb_prop in Hs as [_ Hs].
    discriminate Hs. }
  destruct (Re.re_match PHONE_REGEX s) eqn:E2.
  { apply phone_match_first in E2 as (c & s' & -> & Hc).
    simpl in Hs. apply andb_prop in Hs as [Hs _].
    destruct Hc as [-> | Hc]; [discriminate Hs|].
    rewrite (digit_not_space _ Hc) in Hs. discriminate Hs. }
  destruct (String.prefix "http" s) eqn:E3; [|reflexivity].
  apply prefix_http_first in E3 as (s' & ->). discriminate Hs.
Qed.

Lemma blank_is_text_witness :
  (anonymise_string "   " empty_registry).1 = "text1".
Proof.
  pose proof (blank_is_text "   " eq_refl) as H.
  rewrite anonymise_string_fst, H. reflexivity.
Defined.

(** X4. A string that starts with ["http"] is never a phone number or
    a text: it is an email address when the email pattern accepts it
    (as it does ["http://user@host.org/x"]) and a url otherwise. *)
Theorem http_is_url_or_email (s : string) :
  String.prefix "http" s = true ->
  classify s = (if Re.re_match EMAIL_REGEX s then Email else Url)
  ∧ Re.re_match PHONE_REGEX s = false
  ∧ classify "http://user@host.org/x" = Email.
Proof.
  intros Hp. assert (Hphone : Re.re_match PHONE_REGEX s = false).
  { destruct (Re.re_match PHONE_REGEX s) eqn:E; [|reflexivity].
    apply phone_match_first in E as (c & s' & -> & Hc).
    apply prefix_http_first in Hp as (s'' & [= -> _]).
    destruct Hc as [Hc|Hc]; discriminate Hc. }
  split; [|split; [exact Hphone|reflexivity]].
  unfold classify. rewrite Hphone, Hp. reflexivity.
Qed.

Lemma http_is_url_or_email_witness :
  classify "https://example.org/data" = Url.
Proof.
  apply (http_is_url_or_email "https://example.org/data"). reflexivity.
Defined.

End Categories.

(** ** What the registry holds *)

Section Holds.

Implicit Types (m : gmap string string) (r : registry) (s t : string).

Lemma anonymise_value_dom s m prefix s' :
  is_Some ((anonymise_value s m prefix).2 !! s')
  <-> is_Some (m !! s') ∨ s' = s.
Proof.
  unfold anonymise_value. destruct (m !! s) eqn:E; simpl.
  - split; [intros H; left; exact H|].
    intros [H| ->]; [exact H|]. rewrite E. eexists. reflexivity.
  - rewrite lookup_insert_is_Some. split.
    + intros [->|[_ H]]; [right; reflexivity|left; exact H].
    + intros [H| ->]; [|left; reflexivity].
      destruct (decide (s = s')) as [->|Hne]; [left; reflexivity|right].
      split; assumption.
Qed.

Lemma anonymise_string_dom x r c s :
  is_Some (map_of c (anonymise_string x r).2 !! s)
  <-> is_Some (map_of c r !! s) ∨ (s = x ∧ classify x = c).
Proof.
  rewrite anonymise_string_snd.
  destruct (decide (c = classify x)) as [->|Hne].
  - rewrite map_of_with_map, anonymise_value_dom. split.
    + intros [H| ->]; [left; exact H|right; split; reflexivity].
    + intros [H|[-> _]]; [left; exact H|right; reflexivity].
  - rewrite map_of_with_map_ne by exact Hne. split; [intros H; left; exact H|].
    intros [H|[_ H]]; [exact H|congruence].
Qed.

Lemma anonymise_strings_dom l :
  ∀ r c s,
    is_Some (map_of c (anonymise_strings l r) !! s)
    <-> is_Some (map_of c r !! s) ∨ (s ∈ l ∧ classify s = c).
Proof.
  induction l as [|x l IH]; intros r c s; simpl.
  - split; [intros H; left; exact H|]. intros [H|[H _]]; [exact H|].
    apply elem_of_nil in H. destruct H.
  - unfold anonymise_strings in *. simpl. rewrite IH, anonymise_string_dom.
    rewrite elem_of_cons. split.
    + intros [[H|[-> H]]|[H1 H2]].
      * left. exact H.
      * right. split; [left; reflexivity|exact H].
      * right. split; [right; exact H1|exact H2].
    + intros [H|[[->|H1] H2]].
      * left. left. exact H.
      * left. right. split; [reflexivity|exact H2].
      * right. split; assumption.
Qed.

(** X5. After a run from the empty registry, the dictionary of a
    category holds exactly the strings of that category that were
    anonymised: no string lands in the dictionary of another category
    and none is forgotten. *)
Theorem registry_holds_the_strings (l : list string) (c : category)
    (s : string) :
  is_Some (map_of c (anonymise_strings l empty_registry) !! s)
  <-> s ∈ l ∧ classify s = c.
Proof.
  rewrite anonymise_strings_dom. split; [|intros H; right; exact H].
  intros [H|H]; [|exact H].
  destruct c; simpl in H; rewrite lookup_empty in H; destruct H; discriminate.
Qed.

Lemma registry_holds_the_strings_witness :
  is_Some (email_map (anonymise_strings ["Jane Doe"; "jane@x.com"] empty_registry)
           !! "jane@x.com").
Proof.
  apply (registry_holds_the_strings ["Jane Doe"; "jane@x.com"] Email "jane@x.com").
  split; [|reflexivity]. right. left.
Defined.

Lemma map_full_empty prefix : map_full prefix ∅.
Proof. intros n. rewrite map_size_empty. lia. Qed.

Lemma map_full_anonymise_value prefix m s :
  map_full prefix m -> map_full prefix (anonymise_value s m prefix).2.
Proof.
  intros Hfull. unfold anonymise_value.
  destruct (m !! s) eqn:E; simpl; [exact Hfull|].
  intros n. rewrite (map_size_insert_None _ _ _ E). intros Hn.
  destruct (decide (n = size m + 1)) as [->|Hne].
  - exists s. apply lookup_insert_eq.
  - destruct (Hfull n) as (s' & Hs'); [lia|]. exists s'.
    rewrite lookup_insert_ne; [exact Hs'|]. intros ->. congruence.
Qed.

Lemma map_full_evolves r r' :
  evolves r r' ->
  (∀ c, map_full (prefix_of c) (map_of c r)) ->
  ∀ c, map_full (prefix_of c) (map_of c r').
Proof.
  induction 1 as [r|r s r' _ IH]; intros Hr; [exact Hr|].
  apply IH. intros c. rewrite anonymise_string_snd.
  destruct (decide (c = classify s)) as [->|Hne].
  - rewrite map_of_with_map. apply map_full_anonymise_value, Hr.
  - rewrite map_of_with_map_ne by exact Hne. apply Hr.
Qed.

(** X6. Within one run the counters of a category have no gaps: for
    every [n] from 1 to the number of strings in the dictionary exactly
    one string holds the token with counter [n]. *)
Theorem counters_without_gaps (r : registry) (c : category) (n : nat) :
  reachable r ->
  1 <= n <= size (map_of c r) ->
  ∃ s, map_of c r !! s = Some (prefix_of c +:+ pretty n)
       ∧ ∀ s', map_of c r !! s' = Some (prefix_of c +:+ pretty n) -> s' = s.
Proof.
  intros Hr Hn.
  destruct (map_full_evolves _ _ Hr) with (c := c) (n := n) as (s & Hs);
    [intros []; apply map_full_empty|exact Hn|].
  exists s. split; [exact Hs|]. intros s' Hs'.
  destruct (reachable_ok _ Hr c) as [_ Hinj]. eapply Hinj; eassumption.
Qed.

Lemma counters_without_gaps_witness :
  ∃ s, text_map (anonymise_strings ["Jane Doe"; "John Roe"] empty_registry) !! s
       = Some "text2".
Proof.
  destruct (counters_without_gaps
              (anonymise_strings ["Jane Doe"; "John Roe"] empty_registry) Text 2)
    as (s & Hs & _).
  - eapply evolves_step, evolves_step, evolves_refl.
  - vm_compute. lia.
  - exists s. exact Hs.
Defined.

End Holds.

(** X7. A call of the transform keeps what the registry held: every
    token assigned before the call is still assigned to the same string
    after it, so a second document anonymised in the same run reuses the
    tokens of the first; a well-formed registry stays well formed. *)
Theorem anonymise_keeps_tokens (v : json) (pk : option string) (force : bool)
    (r : registry) (out : json) (r' : registry) :
  wf_json v = true ->
  anonymise v pk force r = Some (out, r') ->
  (∀ s t, token_of r s = Some t -> token_of r' s = Some t)
  ∧ (registry_ok r -> registry_ok r')
  ∧ (reachable r -> reachable r').
Proof.
  intros Hwf H. pose proof (anonymise_evolves _ _ _ _ _ _ Hwf H) as He.
  split; [|split].
  - intros s t. apply token_of_evolves, He.
  - apply registry_ok_evolves, He.
  - intros Hr. eapply evolves_trans; eassumption.
Qed.

Lemma anonymise_keeps_tokens_witness :
  ∃ out r',
    anonymise scenario None false (anonymise_string "Jane Doe" empty_registry).2
    = Some (out, r')
    ∧ token_of r' "Jane Doe" = Some "text1".
Proof.
  destruct (anonymise_fuel_total (S (height scenario)) scenario None false
              (anonymise_string "Jane Doe" empty_registry).2)
    as (out & r' & E); [lia|].
  exists out, r'. split; [exact E|].
  apply (anonymise_keeps_tokens scenario None false _ out r' eq_refl E).
  reflexivity.
Defined.

(** ** What the root call leaves alone *)

Section Untouched.

Lemma neutral_not_limited k : neutral_key k = true -> limited k = false.
Proof.
  unfold neutral_key. intros H. apply andb_prop in H as [H _].
  destruct (limited k) eqn:El; [|reflexivity].
  rewrite (limited_block _ El) in H. discriminate H.
Qed.

Lemma neutral_enter k :
  neutral_key k = true ->
  enter Unforced k = if mem (lower k) SKIP_KEYS then Copied else Unforced.
Proof.
  unfold neutral_key. intros H. apply andb_prop in H as [H1 H2].
  apply negb_true_iff in H1, H2. simpl. rewrite H1, H2. reflexivity.
Qed.

Lemma anon_untouched_all :
  (∀ force v r out r',
     anon force v r out r' ->
     force = false -> no_forcing_key v = true -> out = v ∧ r' = r)
  ∧ (∀ force l r l' r',
       anon_elems force l r l' r' ->
       force = false -> forallb no_forcing_key l = true -> l' = l ∧ r' = r)
  ∧ (∀ force items r res r',
       anon_items force items r res r' ->
       force = false ->
       forallb (fun kv => neutral_key kv.1
                          && (mem (lower kv.1) SKIP_KEYS || no_forcing_key kv.2))
               items = true ->
       res = items ∧ r' = r)
  ∧ (∀ force k v r x r',
       anon_entry force k v r x r' ->
       force = false -> neutral_key k = true ->
       mem (lower k) SKIP_KEYS || no_forcing_key v = true ->
       x = v ∧ r' = r).
Proof.
  apply anon_mutind.
  - intros force items res r r' _ IH Hf Hv.
    destruct (IH Hf Hv) as [-> ->]. split; reflexivity.
  - intros force l l' r r' _ IH Hf Hv.
    destruct (IH Hf Hv) as [-> ->]. split; reflexivity.
  - discriminate.
  - intros. split; reflexivity.
  - intros. split; reflexivity.
  - intros. split; reflexivity.
  - intros force x xs y ys r r1 r2 _ IHx _ IHxs Hf Hv.
    simpl in Hv. apply andb_prop in Hv as [Hx Hxs].
    destruct (IHx Hf Hx) as [-> ->]. destruct (IHxs Hf Hxs) as [-> ->].
    split; reflexivity.
  - intros. split; reflexivity.
  - intros force k v x items res r r1 r2 _ IHe _ IHitems Hf Hv.
    simpl in Hv. apply andb_prop in Hv as [Hkv Hitems].
    apply andb_prop in Hkv as [Hk Hv].
    rewrite limit_limited, (neutral_not_limited _ Hk) in IHe.
    destruct (IHe Hf Hk Hv) as [-> ->]. destruct (IHitems Hf Hitems) as [-> ->].
    split; reflexivity.
  - intros force k v r x r' Hm _ IH -> Hk Hv.
    change (mode_of false) with Unforced in Hm, IH.
    rewrite (neutral_enter _ Hk) in Hm, IH.
    destruct (mem (lower k) SKIP_KEYS); [congruence|].
    apply IH; [reflexivity|exact Hv].
  - intros. split; reflexivity.
Qed.

End Untouched.

(** X8. A document in which no key (outside skipped blocks) is a
    force-block name or a force field name goes through the root call
    unchanged, and the registry is left as it was: no token is made. *)
Theorem plain_document_unchanged (v : json) (pk : option string)
    (r : registry) :
  wf_json v = true ->
  no_forcing_key v = true ->
  anonymise v pk false r = Some (v, r).
Proof.
  intros Hwf Hv.
  destruct (anonymise_fuel_total (S (height v)) v pk false r)
    as (out & r' & E); [lia|].
  destruct anon_untouched_all as [Hall _].
  destruct (Hall _ _ _ _ _ (anonymise_fuel_sound _ _ _ _ _ _ _ Hwf E) eq_refl Hv)
    as [-> ->].
  exact E.
Qed.

Lemma plain_document_unchanged_witness :
  anonymise_document skipped_block = Some (skipped_block, empty_registry).
Proof.
  apply (plain_document_unchanged skipped_block None empty_registry);
    reflexivity.
Defined.

(** ** What a forced call leaves behind *)

Section Forced.

(** A string of the cut value is a string of the value. *)
Lemma get_path_limit_back k v p s :
  get_path (limit k v) p = Some (JStr s) -> get_path v p = Some (JStr s).
Proof.
  rewrite limit_limited. destruct (limited k); [|trivial].
  destruct v as [| | | | |l| |]; trivial.
  destruct p as [|[k'|i] p]; [discriminate|discriminate|].
  destruct l as [|x l]; [trivial|].
  destruct i as [|i]; [trivial|]. simpl. discriminate.
Qed.

Lemma anon_forced_all :
  (∀ force v r out r',
     anon force v r out r' ->
     force = true ->
     ∀ p t, get_path out p = Some (JStr t) ->
            ∃ s, get_path v p = Some (JStr s) ∧ token_of r' s = Some t)
  ∧ (∀ force l r l' r',
       anon_elems force l r l' r' ->
       force = true ->
       ∀ i y p t, l' !! i = Some y -> get_path y p = Some (JStr t) ->
                  ∃ x s, l !! i = Some x ∧ get_path x p = Some (JStr s)
                         ∧ token_of r' s = Some t)
  ∧ (∀ force items r res r',
       anon_items force items r res r' ->
       force = true ->
       ∀ k x p t, Dict.get res k = Some x -> get_path x p = Some (JStr t) ->
                  ∃ v s, Dict.get items k = Some v ∧ get_path v p = Some (JStr s)
                         ∧ token_of r' s = Some t)
  ∧ (∀ force k v r x r',
       anon_entry force k v r x r' ->
       force = true ->
       ∀ p t, get_path x p = Some (JStr t) ->
              ∃ s, get_path v p = Some (JStr s) ∧ token_of r' s = Some t).
Proof.
  apply anon_mutind.
  - intros force items res r r' _ IH Hf p t Hp.
    destruct p as [|[k|i] p]; simpl in Hp; [discriminate| |discriminate].
    destruct (Dict.get res k) as [x|] eqn:Ex; [|discriminate].
    destruct (IH Hf k x p t Ex Hp) as (v & s & Ev & Hs & Ht).
    exists s. simpl. rewrite Ev. split; assumption.
  - intros force l l' r r' _ IH Hf p t Hp.
    destruct p as [|[k|i] p]; simpl in Hp; [discriminate|discriminate|].
    destruct (l' !! i) as [y|] eqn:Ey; [|discriminate].
    destruct (IH Hf i y p t Ey Hp) as (x & s & Ex & Hs & Ht).
    exists s. simpl. rewrite Ex. split; assumption.
  - intros s0 r _ p t Hp. apply get_path_str in Hp as [-> <-].
    exists s0. split; [reflexivity|apply token_of_anonymise_string].
  - discriminate.
  - intros force v r Hv _ p t Hp. destruct (get_path_scalar _ _ _ Hv Hp).
  - intros force r _ i y p t Hi. discriminate.
  - intros force x xs y ys r r1 r2 _ IHx Hrest IHxs Hf i y' p t Hi Hp.
    destruct i as [|i]; simpl in Hi.
    + injection Hi as <-. destruct (IHx Hf p t Hp) as (s & Hs & Ht).
      exists x, s. split; [reflexivity|]. split; [exact Hs|].
      eapply token_of_evolves; [eapply anon_elems_evolves, Hrest|exact Ht].
    + destruct (IHxs Hf i y' p t Hi Hp) as (x' & s & Ex & Hs & Ht).
      exists x', s. split; [exact Ex|]. split; assumption.
  - intros force r _ k x p t Hg. discriminate.
  - intros force k0 v0 x0 items res r r1 r2 _ IHe Hrest IHitems Hf k x p t Hg Hp.
    simpl in Hg. simpl. destruct (String.eqb_spec k0 k) as [->|Hne].
    + injection Hg as <-. destruct (IHe Hf p t Hp) as (s & Hs & Ht).
      exists v0, s. split; [reflexivity|].
      split; [apply (get_path_limit_back _ _ _ _ Hs)|].
      eapply token_of_evolves; [eapply anon_items_evolves, Hrest|exact Ht].
    + apply (IHitems Hf k x p t Hg Hp).
  - intros force k v r x r' Hm _ IH -> p t Hp.
    apply IH; [reflexivity|exact Hp].
  - intros force k v r Hm ->. discriminate Hm.
Qed.

End Forced.

(** X9. After a call with [force = true] every string leaf of the
    output is the token that the registry holds for the string at the
    same place of the input, a category prefix followed by a counter. *)
Theorem forced_output_is_tokens (v : json) (pk : option string)
    (r : registry) (out : json) (r' : registry) (p : list step) (t : string) :
  wf_json v = true ->
  registry_ok r ->
  anonymise v pk true r = Some (out, r') ->
  get_path out p = Some (JStr t) ->
  ∃ s (n : nat),
    get_path v p = Some (JStr s)
    ∧ token_of r' s = Some t
    ∧ 1 <= n ∧ t = prefix_of (classify s) +:+ pretty n.
Proof.
  intros Hwf Hok H Hp. pose proof (anonymise_anon _ _ _ _ _ _ Hwf H) as Ha.
  destruct anon_forced_all as [Hall _].
  destruct (Hall _ _ _ _ _ Ha eq_refl p t Hp) as (s & Hs & Ht).
  assert (Hok' : registry_ok r')
    by (eapply registry_ok_evolves; [eapply anon_evolves, Ha|exact Hok]).
  destruct (Hok' (classify s)) as [Hform _].
  destruct (Hform _ _ Ht) as (n & Hn & En).
  exists s, n. split; [exact Hs|]. split; [exact Ht|]. split; [lia|exact En].
Qed.

Lemma forced_output_is_tokens_witness :
  ∃ s (n : nat),
    get_path forced_skip [Key "contacts"; Idx 0; Key "id"] = Some (JStr s)
    ∧ "text1" = prefix_of (classify s) +:+ pretty n.
Proof.
  destruct (forced_output_is_tokens forced_skip None empty_registry
              (JDict [ ("contacts", JList [ JDict [ ("id", JStr "text1") ] ]) ])
              (Registry ∅ ∅ ∅ {[ "abc-1" := "text1" ]})
              [Key "contacts"; Idx 0; Key "id"] "text1")
    as (s & n & Hs & _ & _ & Hn).
  - reflexivity.
  - apply registry_ok_empty.
  - vm_compute. reflexivity.
  - reflexivity.
  - exists s, n. split; assumption.
Defined.

(** ** What sits under a skip key *)

Section Copied.

Lemma mode_of_not_copied force : mode_of force <> Copied.
Proof. destruct force; discriminate. Qed.

Lemma enter_limited force k : limited k = true -> enter (mode_of force) k = Forced.
Proof.
  intros Hl. apply enter_block; [apply mode_of_not_copied|].
  apply limited_block, Hl.
Qed.

Lemma anon_copied_all :
  (∀ force v r out r',
     anon force v r out r' ->
     ∀ p w, get_path v p = Some w -> mode_at (mode_of force) p = Copied ->
            get_path out p = Some w)
  ∧ (∀ force l r l' r',
       anon_elems force l r l' r' ->
       ∀ i x p w, l !! i = Some x -> get_path x p = Some w ->
                  mode_at (mode_of force) p = Copied ->
                  ∃ y, l' !! i = Some y ∧ get_path y p = Some w)
  ∧ (∀ force items r res r',
       anon_items force items r res r' ->
       ∀ k v p w, Dict.get items k = Some v -> get_path v p = Some w ->
                  mode_at (enter (mode_of force) k) p = Copied ->
                  ∃ x, Dict.get res k = Some x ∧ get_path x p = Some w)
  ∧ (∀ force k v r x r',
       anon_entry force k v r x r' ->
       ∀ p w, get_path v p = Some w ->
              mode_at (enter (mode_of force) k) p = Copied ->
              get_path x p = Some w).
Proof.
  apply anon_mutind.
  - intros force items res r r' _ IH p w Hp Hm.
    destruct p as [|[k|i] p]; simpl in Hp, Hm;
      [destruct (mode_of_not_copied _ Hm)| |discriminate].
    destruct (Dict.get items k) as [v|] eqn:Ev; [|discriminate].
    destruct (IH k v p w Ev Hp Hm) as (x & Ex & Hx). simpl. rewrite Ex. exact Hx.
  - intros force l l' r r' _ IH p w Hp Hm.
    destruct p as [|[k|i] p]; simpl in Hp, Hm;
      [destruct (mode_of_not_copied _ Hm)|discriminate|].
    destruct (l !! i) as [x|] eqn:Ex; [|discriminate].
    destruct (IH i x p w Ex Hp Hm) as (y & Ey & Hy). simpl. rewrite Ey. exact Hy.
  - intros s r p w Hp Hm. destruct p as [|[k|i] p]; simpl in Hp, Hm; discriminate.
  - intros s r p w Hp Hm. destruct p as [|[k|i] p]; simpl in Hp, Hm; discriminate.
  - intros force v r Hv p w Hp Hm.
    destruct p as [|[k|i] p]; [destruct (mode_of_not_copied _ Hm)| |];
      destruct v; discriminate.
  - intros force r i x p w Hi. discriminate.
  - intros force x xs y ys r r1 r2 _ IHx _ IHxs i x' p w Hi Hp Hm.
    destruct i as [|i]; simpl in Hi.
    + injection Hi as <-. exists y. split; [reflexivity|apply (IHx p w Hp Hm)].
    + apply (IHxs i x' p w Hi Hp Hm).
  - intros force r k v p w Hg. discriminate.
  - intros force k0 v0 x0 items res r r1 r2 _ IHe _ IHitems k v p w Hg Hp Hm.
    simpl in Hg. simpl. destruct (String.eqb_spec k0 k) as [->|Hne].
    + injection Hg as <-. exists x0. split; [reflexivity|].
      apply IHe; [|exact Hm]. rewrite limit_limited.
      destruct (limited k) eqn:El; [|exact Hp].
      rewrite (enter_limited _ _ El), mode_at_forced in Hm. discriminate Hm.
    + apply (IHitems k v p w Hg Hp Hm).
  - intros force k v r x r' Hne _ IH p w Hp Hm. apply IH; [exact Hp|].
    destruct (enter (mode_of force) k); [exact Hm|exact Hm|congruence].
  - intros force k v r Hc p w Hp _. exact Hp.
Qed.

End Copied.

(** X10. At a root call, what sits under a skip key that is reached
    without passing a forcing key is copied as it is, at any depth:
    strings inside it are kept even under force-block keys, and lists
    under ["data_files"] or ["data_resources"] inside it keep all their
    elements. *)
Theorem skipped_subtree_copied (v : json) (pk : option string) (r : registry)
    (out : json) (r' : registry) (p1 : list step) (k : string)
    (p2 : list step) (w : json) :
  wf_json v = true ->
  anonymise v pk false r = Some (out, r') ->
  get_path v (p1 ++ Key k :: p2) = Some w ->
  Forall (fun k' => mem (lower k') ANON_BLOCKS = false
                    ∧ mem (lower k') PIPELINE_FIELDS = false) (path_keys p1) ->
  mem (lower k) SKIP_KEYS = true ->
  get_path out (p1 ++ Key k :: p2) = Some w.
Proof.
  intros Hwf H Hp Hfree Hk.
  pose proof (anonymise_anon _ _ _ _ _ _ Hwf H) as Ha.
  destruct anon_copied_all as [Hall _]. apply (Hall _ _ _ _ _ Ha _ _ Hp).
  rewrite mode_at_app. simpl.
  destruct (mode_at_no_force p1 Unforced) as [Hm _]; [discriminate|exact Hfree|].
  destruct (skip_not_forcing _ Hk) as [E1 E2].
  change (mode_of false) with Unforced.
  destruct (mode_at Unforced p1); [congruence| |apply mode_at_copied].
  simpl. rewrite E1, E2, Hk. apply mode_at_copied.
Qed.

Lemma skipped_subtree_copied_witness :
  ∃ out r',
    anonymise_document skipped_files = Some (out, r')
    ∧ get_path out [Key "records"; Idx 0; Key "location"; Key "data_files"; Idx 1]
      = Some (JStr "b").
Proof.
  destruct (anonymise_fuel_total (S (height skipped_files)) skipped_files None
              false empty_registry) as (out & r' & E); [lia|].
  exists out, r'. split; [exact E|].
  apply (skipped_subtree_copied skipped_files None empty_registry out r'
           [Key "records"; Idx 0] "location" [Key "data_files"; Idx 1]);
    [reflexivity|exact E|reflexivity| |reflexivity].
  repeat constructor.
Defined.

(** X11. At a root call a string under a force field name (["script"],
    ["endpoints"], in any case), however deep under it, is replaced at
    its place by the token the registry holds for it, when no skip key
    lies on its path and the truncation keeps the path. *)
Theorem pipeline_field_forced (v : json) (pk : option string) (r : registry)
    (out : json) (r' : registry) (p1 : list step) (k : string)
    (p2 : list step) (s : string) :
  wf_json v = true ->
  anonymise v pk false r = Some (out, r') ->
  get_path v (p1 ++ Key k :: p2) = Some (JStr s) ->
  mem (lower k) PIPELINE_FIELDS = true ->
  Forall (fun k' => mem (lower k') SKIP_KEYS = false)
         (path_keys (p1 ++ Key k :: p2)) ->
  kept (p1 ++ Key k :: p2) = true ->
  ∃ t, get_path out (p1 ++ Key k :: p2) = Some (JStr t)
       ∧ token_of r' s = Some t.
Proof.
  intros Hwf H Hp Hk Hskip Hkept.
  pose proof (anonymise_anon _ _ _ _ _ _ Hwf H) as Ha.
  destruct (anon_paths _ _ _ _ _ _ _ Ha Hp Hkept) as (t & Ht & Hleaf).
  exists t. split; [exact Ht|].
  assert (Hm : mode_at (mode_of false) (p1 ++ Key k :: p2) = Forced).
  { rewrite mode_at_app. simpl.
    unfold path_keys in Hskip. rewrite omap_app in Hskip.
    apply Forall_app in Hskip as [Hskip _].
    pose proof (mode_at_no_skip p1 Unforced ltac:(discriminate) Hskip) as Hne.
    destruct (mode_at Unforced p1); [apply mode_at_forced| |congruence].
    simpl. rewrite Hk. apply mode_at_forced. }
  rewrite Hm in Hleaf. exact Hleaf.
Qed.

Lemma pipeline_field_forced_witness :
  ∃ out r' t,
    anonymise_document script_field = Some (out, r')
    ∧ get_path out [Key "pipeline"; Key "Script"] = Some (JStr t)
    ∧ token_of r' "run.sh" = Some t.
Proof.
  destruct (anonymise_fuel_total (S (height script_field)) script_field None
              false empty_registry) as (out & r' & E); [lia|].
  destruct (pipeline_field_forced script_field None empty_registry out r'
              [Key "pipeline"] "Script" [] "run.sh" eq_refl E eq_refl eq_refl)
    as (t & Ht & Htok); [repeat constructor|reflexivity|].
  exists out, r', t. split; [exact E|]. split; assumption.
Defined.

(** ** The parent key *)

Lemma for_each_ext {A B} (f g : A -> M B) (l : list A) :
  (∀ x r, f x r = g x r) -> ∀ r, for_each f l r = for_each g l r.
Proof.
  intros Hfg. induction l as [|x l IH]; intros r; simpl; [reflexivity|].
  unfold bind. rewrite Hfg. destruct (g x r) as [[y r1]|]; [|reflexivity].
  rewrite IH. reflexivity.
Qed.

Lemma anonymise_fuel_parent_key n :
  ∀ v pk pk' force r,
    anonymise_fuel n v pk force r = anonymise_fuel n v pk' force r.
Proof.
  induction n as [|n IH]; intros v pk pk' force r; [reflexivity|].
  destruct v; try reflexivity.
  rewrite !anonymise_fuel_list. unfold bind.
  rewrite (for_each_ext _ (fun x => anonymise_fuel n x pk' force)); [reflexivity|].
  intros x r0. apply IH.
Qed.

(** X12. The argument [parent_key] has no effect: whatever key is
    passed, the transform returns the same value and the same
    registry. *)
Theorem parent_key_unused (v : json) (pk pk' : option string) (force : bool)
    (r : registry) :
  anonymise v pk force r = anonymise v pk' force r.
Proof. apply anonymise_fuel_parent_key. Qed.

(** ** The script around the transform *)

Section Script.

Lemma dict_get_keys {A} (d : list (string * A)) k :
  existsb (String.eqb k) (Dict.keys d) = true <-> is_Some (Dict.get d k).
Proof.
  induction d as [|[k' x] d IH]; simpl.
  - split; [discriminate|]. intros [? H]. discriminate H.
  - rewrite String.eqb_sym. destruct (String.eqb k' k).
    + split; [intros _; eexists; reflexivity|reflexivity].
    + exact IH.
Qed.

Lemma dict_get_set {A} (d : list (string * A)) k x :
  Dict.get (Dict.set d k x) k = Some x.
Proof.
  induction d as [|[k' x'] d IH]; simpl.
  - rewrite String.eqb_refl. reflexivity.
  - destruct (String.eqb k' k) eqn:E; simpl; rewrite E; [reflexivity|exact IH].
Qed.

Lemma dict_keys_set {A} (d : list (string * A)) k x y :
  Dict.get d k = Some y -> Dict.keys (Dict.set d k x) = Dict.keys d.
Proof.
  unfold Dict.keys. induction d as [|[k' x'] d IH]; simpl; [discriminate|].
  destruct (String.eqb k' k); [reflexivity|].
  intros H. rewrite fmap_cons. simpl. f_equal. apply IH, H.
Qed.

Lemma dict_wf_set (d : list (string * json)) k x :
  forallb (fun kv => wf_json kv.2) d = true -> wf_json x = true ->
  forallb (fun kv => wf_json kv.2) (Dict.set d k x) = true.
Proof.
  intros Hd Hx. induction d as [|[k' x'] d IH]; simpl in *.
  - rewrite Hx. reflexivity.
  - apply andb_prop in Hd as [H1 H2]. destruct (String.eqb k' k); simpl.
    + rewrite Hx, H2. reflexivity.
    + rewrite H1, (IH H2). reflexivity.
Qed.

Lemma dict_wf_get (d : list (string * json)) k v :
  forallb (fun kv => wf_json kv.2) d = true -> Dict.get d k = Some v ->
  wf_json v = true.
Proof.
  induction d as [|[k' x'] d IH]; simpl; [discriminate|].
  intros H Hg. apply andb_prop in H as [H1 H2].
  destruct (String.eqb k' k); [injection Hg as <-; exact H1|apply IH; assumption].
Qed.

Lemma wf_take n (l : list json) :
  forallb wf_json l = true -> forallb wf_json (take n l) = true.
Proof.
  revert n. induction l as [|x l IH]; intros [|n]; simpl; trivial.
  intros H. apply andb_prop in H as [H1 H2]. rewrite H1, (IH n H2). reflexivity.
Qed.

Lemma wf_trim items l :
  wf_json (JDict items) = true ->
  Dict.get items "records" = Some (JList l) ->
  wf_json (JDict (Dict.set items "records" (JList (take MAX_RECORDS l)))) = true.
Proof.
  intros Hwf Hg. simpl in *. apply andb_prop in Hwf as [Hnd Hall].
  rewrite (dict_keys_set _ _ _ _ Hg), Hnd. simpl.
  apply dict_wf_set; [exact Hall|]. simpl.
  apply wf_take. apply (dict_wf_get _ _ _ Hall Hg).
Qed.

End Script.


Lemma existsb_is_records (l : list json) :
  existsb is_records l = true <-> JStr "records" ∈ l.
Proof.
  induction l as [|x l IH]; simpl.
  - split; [discriminate|]. intros H. apply elem_of_nil in H. destruct H.
  - rewrite elem_of_cons, orb_true_iff, IH.
    assert (Hx : is_records x = true <-> JStr "records" = x).
    { destruct x; simpl; try (split; [discriminate|intros [=]]).
      split; [intros H; apply String.eqb_eq in H; congruence|].
      intros [= <-]. reflexivity. }
    rewrite Hx. reflexivity.
Qed.


(** * location_analysis_final.py *)

(** ** Names *)

Section Names.

Import Location.

Lemma length_lower (s : string) : String.length (lower s) = String.length s.
Proof. induction s as [|c s IH]; simpl; [reflexivity|rewrite IH; reflexivity]. Qed.

Lemma length_lstrip cls (s : string) :
  String.length (lstrip cls s) <= String.length s.
Proof.
  induction s as [|c s IH]; simpl; [lia|]. destruct (cls c); simpl; lia.
Qed.

Lemma length_rstrip cls (s : string) :
  String.length (rstrip cls s) <= String.length s.
Proof.
  induction s as [|c s IH]; simpl; [lia|].
  destruct (rstrip cls s); [destruct (cls c)|]; simpl in *; lia.
Qed.

Lemma length_strip cls (s : string) :
  String.length (strip cls s) <= String.length s.
Proof.
  unfold strip. pose proof (length_rstrip cls (lstrip cls s)).
  pose proof (length_lstrip cls s). lia.
Qed.

Lemma lstrip_head cls (s : string) :
  lstrip cls s = "" ∨ ∃ c s', lstrip cls s = String c s' ∧ cls c = false.
Proof.
  induction s as [|c s IH]; simpl; [left; reflexivity|].
  destruct (cls c) eqn:E; [exact IH|]. right. exists c, s. split; trivial.
Qed.

Lemma rstrip_keeps_head cls c (s : string) :
  cls c = false -> ∃ w, rstrip cls (String c s) = String c w.
Proof.
  intros Hc. simpl. destruct (rstrip cls s); [|eexists; reflexivity].
  rewrite Hc. eexists. reflexivity.
Qed.

Lemma rstrip_twice cls (s : string) :
  rstrip cls (rstrip cls s) = rstrip cls s.
Proof.
  induction s as [|c s IH]; [reflexivity|]. simpl.
  destruct (rstrip cls s) as [|c' r] eqn:E.
  - destruct (cls c) eqn:Ec; [reflexivity|]. simpl. rewrite Ec. reflexivity.
  - change (rstrip cls (String c (String c' r)))
      with (match rstrip cls (String c' r) with
            | EmptyString => if cls c then EmptyString else String c EmptyString
            | r0 => String c r0
            end).
    rewrite IH. reflexivity.
Qed.

(** Stripping what is stripped changes nothing. *)
Lemma strip_twice cls (s : string) : strip cls (strip cls s) = strip cls s.
Proof.
  unfold strip. destruct (lstrip_head cls s) as [->|(c & s' & -> & Hc)];
    [reflexivity|].
  destruct (rstrip_keeps_head cls c s' Hc) as (w & Hw).
  rewrite Hw. simpl lstrip. rewrite Hc, <- Hw. apply rstrip_twice.
Qed.

Lemma mem_placeholder_length (s : string) :
  mem s PLACEHOLDERS = true -> String.length s <= 7.
Proof.
  unfold mem. intros H. apply bool_decide_eq_true in H.
  unfold PLACEHOLDERS in H. rewrite !elem_of_union, !elem_of_singleton in H.
  destruct H as [[[-> | ->] | ->] | ->]; simpl; lia.
Qed.

(** A name that is Scotland is a name that counts. *)
Lemma scotland_name_clean (name : json) :
  is_scotland name = true ->
  ∃ s, name = JStr s
       ∧ clean_location_name name = Some (strip is_space s)
       ∧ 8 <= String.length (strip is_space s).
Proof.
  destruct name as [| | | |s| | |]; try discriminate. simpl. intros H.
  apply String.eqb_eq in H.
  assert (Hlen : 8 <= String.length (strip is_space s)).
  { pose proof (length_strip is_punct (strip is_space s)) as Hl.
    rewrite <- (length_lower (strip is_punct _)), H in Hl. exact Hl. }
  exists s. split; [reflexivity|]. split; [|exact Hlen].
  destruct (mem (lower (strip is_space s)) PLACEHOLDERS) eqn:Em.
  { apply mem_placeholder_length in Em. rewrite length_lower in Em. lia. }
  destruct (String.eqb_spec (strip is_space s) "") as [E|_]; [|reflexivity].
  rewrite E in Hlen. simpl in Hlen. lia.
Qed.

End Names.

(** X15. What [clean_location_name] returns is the name without the
    white space around it: it is never empty and never a placeholder
    (["-"], ["n/a"], ["na"], ["unknown"], in any case), and cleaning it
    again gives it back. A value that is no string gives [None]. *)
Theorem clean_location_name_result (name : json) (t : string) :
  Location.clean_location_name name = Some t ->
  (∃ s, name = JStr s ∧ t = Location.strip is_space s)
  ∧ t <> ""
  ∧ mem (lower t) Location.PLACEHOLDERS = false
  ∧ Location.strip is_space t = t
  ∧ Location.clean_location_name (JStr t) = Some t.
Proof.
  destruct name as [| | | |s| | |]; try discriminate. simpl.
  destruct (mem (lower (Location.strip is_space s)) Location.PLACEHOLDERS) eqn:Em;
    [discriminate|].
  destruct (String.eqb_spec (Location.strip is_space s) "") as [E|Hne];
    [discriminate|].
  intros [= <-]. split; [exists s; split; reflexivity|].
  split; [exact Hne|]. split; [exact Em|].
  split; [apply strip_twice|].
  rewrite strip_twice, Em.
  destruct (String.eqb_spec (Location.strip is_space s) ""); [congruence|reflexivity].
Qed.

Lemma clean_location_name_result_witness :
  Location.clean_location_name (JStr "Isle of Skye") = Some "Isle of Skye".
Proof.
  apply (clean_location_name_result (JStr "  Isle of Skye ") "Isle of Skye").
  reflexivity.
Defined.

(** X16. A name that [is_scotland] accepts is a name that
    [clean_location_name] keeps: it is a string whose stripped form has
    at least eight characters, so it is neither empty nor a
    placeholder. *)
Theorem scotland_is_a_location (name : json) :
  Location.is_scotland name = true ->
  ∃ s, name = JStr s
       ∧ Location.clean_location_name name = Some (Location.strip is_space s)
       ∧ Location.truthy (Location.clean_location_name name) = true.
Proof.
  intros H. destruct (scotland_name_clean name H) as (s & -> & Hc & Hlen).
  exists s. split; [reflexivity|]. split; [exact Hc|].
  rewrite Hc. simpl.
  destruct (String.eqb_spec (Location.strip is_space s) "") as [E|_];
    [|reflexivity].
  rewrite E in Hlen. simpl in Hlen. lia.
Qed.

Lemma scotland_is_a_location_witness :
  Location.clean_location_name (JStr "  (Scotland). ") = Some "(Scotland).".
Proof.
  destruct (scotland_is_a_location (JStr "  (Scotland). ") eq_refl)
    as (s & [= <-] & Hc & _).
  exact Hc.
Defined.

(** ** Counts *)

Section Counts.

Import Location.

Lemma scottish_is_located (locs : list json) :
  existsb is_scotland (names locs) = true ->
  Nat.eqb (length (populated locs)) 0 = false.
Proof.
  intros H. apply existsb_exists in H as (name & Hin & Hs).
  destruct (scotland_name_clean name Hs) as (s & -> & Hc & Hlen).
  assert (Hp : In (clean_location_name (JStr s)) (populated locs)).
  { unfold populated. apply filter_In. split; [apply in_map, Hin|].
    rewrite Hc. simpl.
    destruct (String.eqb_spec (strip is_space s) "") as [E|_]; [|reflexivity].
    rewrite E in Hlen. simpl in Hlen. lia. }
  destruct (populated locs); [destruct Hp|reflexivity].
Qed.

Lemma count_record_ok info rec info' :
  counts_ok info ->
  count_record info rec = inr info' ->
  counts_ok info'
  ∧ total_records info' = total_records info
  ∧ records_with_location info' <= records_with_location info + 1.
Proof.
  intros (H1 & H2 & H3). destruct rec; try discriminate. simpl.
  set (locs := list_or_empty (get_or_none items "locations")).
  pose proof (scottish_is_located locs) as Hsl.
  intros [= <-]. unfold counts_ok. simpl.
  destruct (existsb is_scotland (names locs));
    [rewrite (Hsl eq_refl)|destruct (Nat.eqb (length (populated locs)) 0)];
    simpl; rewrite ?orb_true_r, ?orb_false_r;
    (split; [split; [lia|split; [|]]|split; [reflexivity|lia]]);
    try (split; [intros _; lia|reflexivity]);
    try (rewrite Nat.add_0_r; assumption).
Qed.

Lemma count_records_ok records :
  ∀ info info',
    counts_ok info ->
    count_records info records = inr info' ->
    counts_ok info'
    ∧ total_records info' = total_records info
    ∧ records_with_location info'
      <= records_with_location info + length records.
Proof.
  induction records as [|rec rest IH]; intros info info' Hok; simpl.
  - intros [= <-]. split; [exact Hok|]. split; [reflexivity|lia].
  - destruct (count_record info rec) as [e|info1] eqn:E; [discriminate|].
    destruct (count_record_ok _ _ _ Hok E) as (Hok1 & Ht1 & Hl1).
    intros H. destruct (IH _ _ Hok1 H) as (Hok' & Ht' & Hl').
    split; [exact Hok'|]. split; [congruence|lia].
Qed.

Lemma count_records_fails records :
  ∀ info,
    count_records info records = inl AttributeError
    <-> ∃ x, x ∈ records ∧ is_dict x = false.
Proof.
  induction records as [|rec rest IH]; intros info; simpl.
  - split; [discriminate|]. intros (x & Hx & _). apply elem_of_nil in Hx. destruct Hx.
  - destruct (count_record info rec) as [[]|info1] eqn:E.
    + split; [intros _|reflexivity]. exists rec. split; [left|].
      destruct rec; try reflexivity. discriminate E.
    + rewrite IH. destruct rec; try discriminate E.
      split; intros (x & Hx & Hd); exists x; (split; [|exact Hd]).
      * right. exact Hx.
      * apply elem_of_cons in Hx as [->|Hx]; [discriminate Hd|exact Hx].
Qed.

End Counts.

(** X17. When [process_file] returns counts, they are consistent: the
    records with a Scottish name are among the records with a location
    name, and those among all records of the file; each flag is set
    exactly when its count is positive. *)
Theorem process_file_counts (data : json) (info : Location.file_info) :
  Location.process_file (Some data) = inr (Some info) ->
  Location.records_with_scotland info <= Location.records_with_location info
  ∧ Location.records_with_location info <= Location.total_records info
  ∧ (Location.has_location info = true
     <-> 0 < Location.records_with_location info)
  ∧ (Location.has_scotland_name info = true
     <-> 0 < Location.records_with_scotland info)
  ∧ (∃ items, data = JDict items
              ∧ Location.total_records info
                = length (Location.list_or_empty
                            (Location.get_or_none items "records"))).
Proof.
  unfold Location.process_file. destruct data; try discriminate.
  set (records := Location.list_or_empty (Location.get_or_none items "records")).
  destruct (Location.count_records _ records) as [e|info'] eqn:E; [discriminate|].
  intros [= <-].
  assert (Hstart : counts_ok (Location.FileInfo false false (length records) 0 0)).
  { unfold counts_ok. simpl. split; [lia|]. split; split; (discriminate || lia). }
  destruct (count_records_ok records _ _ Hstart E) as ((H1 & H2 & H3) & Ht & Hl).
  simpl in Ht, Hl.
  split; [exact H1|]. split; [lia|]. split; [exact H2|]. split; [exact H3|].
  exists items. split; [reflexivity|exact Ht].
Qed.

Lemma process_file_counts_witness :
  Location.process_file (Some two_places)
  = inr (Some (Location.FileInfo true true 2 1 1))
  ∧ Location.records_with_location (Location.FileInfo true true 2 1 1)
    <= Location.total_records (Location.FileInfo true true 2 1 1).
Proof.
  split; [vm_compute; reflexivity|].
  apply (process_file_counts two_places (Location.FileInfo true true 2 1 1)).
  vm_compute. reflexivity.
Defined.

(** X18. On a loaded mapping [process_file] raises an [AttributeError]
    (which it does not catch) exactly when ["records"] is a list with
    an element that is no mapping; a missing ["records"], or one that
    is no list, counts as no records. A loaded value that is no mapping
    always raises. *)
Theorem process_file_raises (data : json) :
  json_only data = true ->
  Location.process_file (Some data) = inl Location.AttributeError
  <-> match data with
      | JDict items =>
          ∃ l x, Dict.get items "records" = Some (JList l)
                 ∧ x ∈ l ∧ Location.is_dict x = false
      | _ => True
      end.
Proof.
  intros _. unfold Location.process_file.
  destruct data; try (split; [trivial|reflexivity]).
  set (records := Location.list_or_empty (Location.get_or_none items "records")).
  assert (Hrec : (∃ x, x ∈ records ∧ Location.is_dict x = false)
                 <-> ∃ l x, Dict.get items "records" = Some (JList l)
                            ∧ x ∈ l ∧ Location.is_dict x = false).
  { unfold records, Location.get_or_none.
    destruct (Dict.get items "records") as [v|]; simpl.
    - split.
      + intros (x & Hx & Hd). destruct v; simpl in Hx;
          try (apply elem_of_nil in Hx; destruct Hx).
        exists l, x. repeat split; assumption.
      + intros (l & x & [= ->] & Hx & Hd). exists x. split; assumption.
    - split; [intros (x & Hx & _); apply elem_of_nil in Hx; destruct Hx|].
      intros (l & x & Hl & _). discriminate Hl. }
  rewrite <- Hrec, <- (count_records_fails records
                         (Location.FileInfo false false (length records) 0 0)).
  destruct (Location.count_records _ records) as [[]|info];
    split; trivial; discriminate.
Qed.

Lemma process_file_raises_witness :
  Location.process_file (Some (JDict [ ("records", JList [ JStr "r1" ]) ]))
  = inl Location.AttributeError.
Proof.
  apply (process_file_raises (JDict [ ("records", JList [ JStr "r1" ]) ]));
    [reflexivity|].
  exists [ JStr "r1" ], (JStr "r1"). repeat split. left.
Defined.

(** ** File identities *)

Section Identity.

Import Location.

Lemma has_char_app c (a b : string) :
  has_char c (a +:+ b) = has_char c a || has_char c b.
Proof.
  induction a as [|x a IH]; simpl; [reflexivity|].
  rewrite IH. apply orb_assoc.
Qed.

Lemma basename_plain (x : string) : has_char "/" x = false -> basename x = x.
Proof.
  destruct x as [|c x]; [reflexivity|]. intros H. cbn [basename].
  rewrite H. reflexivity.
Qed.

Lemma basename_after_slash (dir x : string) :
  has_char "/" x = false -> basename (dir +:+ String "/" x) = x.
Proof.
  intros Hx. induction dir as [|c dir IH].
  - change ("" +:+ String "/"%char x) with (String "/"%char x).
    cbn [basename].
    assert (H : has_char "/" (String "/"%char x) = true)
      by (cbn [has_char]; rewrite Ascii.eqb_refl; reflexivity).
    rewrite H. apply basename_plain, Hx.
  - change (String c dir +:+ String "/"%char x)
      with (String c (dir +:+ String "/"%char x)).
    cbn [basename].
    assert (H : has_char "/" (String c (dir +:+ String "/"%char x)) = true).
    { cbn [has_char]. rewrite has_char_app. cbn [has_char].
      rewrite Ascii.eqb_refl, orb_true_l, !orb_true_r. reflexivity. }
    rewrite H. exact IH.
Qed.

Lemma split_nonempty sep (s : string) : split sep s <> [].
Proof.
  destruct s as [|c s]; simpl; [discriminate|].
  destruct (Ascii.eqb c sep); [discriminate|].
  destruct (split sep s); discriminate.
Qed.

Lemma split_plain sep (s : string) : has_char sep s = false -> split sep s = [s].
Proof.
  induction s as [|c s IH]; simpl; [reflexivity|]. intros H.
  apply orb_false_elim in H as [Hc Hs]. rewrite Hc, (IH Hs). reflexivity.
Qed.

(** Splitting and joining on the same character gives the string back. *)
Lemma join_split (sep : ascii) (s : string) :
  join (String sep "") (split sep s) = s.
Proof.
  induction s as [|c s IH]; [reflexivity|]. simpl split.
  destruct (Ascii.eqb_spec c sep) as [->|Hne].
  - pose proof (split_nonempty sep s) as Hn.
    destruct (split sep s) as [|p ps] eqn:E; [congruence|].
    change (join (String sep "") ("" :: p :: ps))
      with (String sep (join (String sep "") (p :: ps))).
    rewrite IH. reflexivity.
  - pose proof (split_nonempty sep s) as Hn.
    destruct (split sep s) as [|p ps] eqn:E; [congruence|].
    destruct ps as [|q ps].
    + simpl in *. rewrite IH. reflexivity.
    + change (join (String sep "") (String c p :: q :: ps))
        with (String c (join (String sep "") (p :: q :: ps))).
      rewrite IH. reflexivity.
Qed.

Lemma split_last sep (name ext : string) :
  has_char sep ext = false ->
  split sep (name +:+ String sep ext) = split sep name ++ [ext].
Proof.
  intros Hext. induction name as [|c name IH].
  - change ("" +:+ String sep ext) with (String sep ext).
    simpl split. rewrite Ascii.eqb_refl, (split_plain _ _ Hext). reflexivity.
  - change (String c name +:+ String sep ext)
      with (String c (name +:+ String sep ext)).
    simpl split. rewrite IH. destruct (Ascii.eqb c sep); [reflexivity|].
    pose proof (split_nonempty sep name) as Hn.
    destruct (split sep name); [congruence|reflexivity].
Qed.

End Identity.

(** X19. [file_identity] of a path [dir/name.ext] is [name]: the
    directories and the last extension are dropped, earlier dots stay
    (["a/b.tar.gz"] gives ["b.tar"], a bare [".json"] gives the empty
    identity); a file name without a dot is its own identity. *)
Theorem file_identity_drops_extension (dir name ext : string) :
  Location.has_char "/" name = false ->
  Location.has_char "/" ext = false ->
  Location.has_char "." ext = false ->
  Location.file_identity (dir +:+ "/" +:+ name +:+ "." +:+ ext) = name
  ∧ Location.file_identity (dir +:+ "/" +:+ ext) = ext.
Proof.
  intros Hname Hext Hdot. unfold Location.file_identity. split.
  - change (dir +:+ "/" +:+ name +:+ "." +:+ ext)
      with (dir +:+ String "/"%char (name +:+ String "."%char ext)).
    rewrite basename_after_slash
      by (rewrite has_char_app; simpl; rewrite Hname, Hext; reflexivity).
    rewrite has_char_app. simpl Location.has_char at 2. rewrite orb_true_r.
    rewrite (split_last "." name ext Hdot), length_app. simpl length.
    pose proof (split_nonempty "." name) as Hn.
    assert (Hlen : (1 <? length (Location.split "." name) + 1) = true).
    { apply Nat.ltb_lt. destruct (Location.split "." name); [congruence|].
      simpl. lia. }
    rewrite Hlen, removelast_last. apply (join_split "."%char).
  - change (dir +:+ "/" +:+ ext) with (dir +:+ String "/"%char ext).
    rewrite (basename_after_slash _ _ Hext), Hdot. reflexivity.
Qed.

Lemma file_identity_drops_extension_witness :
  Location.file_identity "data/in/site.v2.json" = "site.v2".
Proof.
  apply (file_identity_drops_extension "data/in" "site.v2" "json");
    reflexivity.
Defined.

(** * data_anonymiser.py: one document, several times *)

Lemma same_token_later (s t : string) (r r1 r2 : registry) :
  anonymise_string s r = (t, r1) -> evolves r1 r2 ->
  anonymise_string s r2 = (t, r2).
Proof.
  intros Hcall Hrun. apply anonymise_string_known.
  apply (token_of_evolves r1); [exact Hrun|].
  pose proof (token_of_anonymise_string s r) as H.
  rewrite Hcall in H. exact H.
Qed.

Section Again.

Variable n : nat.
Hypothesis IH :
  ∀ v pk force r out r' r'',
    wf_json v = true ->
    anonymise_fuel n v pk force r = Some (out, r') ->
    evolves r' r'' ->
    anonymise_fuel n v pk force r'' = Some (out, r'').

Lemma string_token_again s r x r1 r'' :
  string_token s r = Some (x, r1) -> evolves r1 r'' ->
  string_token s r'' = Some (x, r'').
Proof.
  unfold string_token. destruct (anonymise_string s r) as [t r0] eqn:E.
  intros [= <- <-] He.
  rewrite (same_token_later s t r r0 r'' E He). reflexivity.
Qed.

Lemma entry_again force k v r x r1 r'' :
  wf_json v = true ->
  entry (anonymise_fuel n) force k v r = Some (x, r1) ->
  evolves r1 r'' ->
  entry (anonymise_fuel n) force k v r'' = Some (x, r'').
Proof.
  intros Hwf. unfold entry.
  destruct (force || mem (lower k) PIPELINE_FIELDS).
  - destruct v; try (apply IH; exact Hwf). apply string_token_again.
  - destruct (mem (lower k) ANON_BLOCKS); [apply IH; exact Hwf|].
    destruct (mem (lower k) SKIP_KEYS); [|apply IH; exact Hwf].
    intros [= <- <-] _. reflexivity.
Qed.

Lemma for_each_again pk force l :
  ∀ r l' r' r'',
    forallb wf_json l = true ->
    for_each (fun x => anonymise_fuel n x pk force) l r = Some (l', r') ->
    evolves r' r'' ->
    for_each (fun x => anonymise_fuel n x pk force) l r'' = Some (l', r'').
Proof.
  induction l as [|x l IHl]; intros r l' r' r'' Hwf; simpl.
  - intros [= <- <-] _. reflexivity.
  - simpl in Hwf. apply andb_prop in Hwf as [Hx Hwf]. unfold bind.
    destruct (anonymise_fuel n x pk force r) as [[y r1]|] eqn:Ey; [|discriminate].
    destruct (for_each _ l r1) as [[ys r2]|] eqn:Eys; [|discriminate].
    intros [= <- <-] He.
    assert (H1 : evolves r1 r2).
    { eapply anon_elems_evolves, for_each_sound; [|exact Hwf|exact Eys].
      intros. eapply anonymise_fuel_sound; eassumption. }
    rewrite (IH _ _ _ _ _ _ r'' Hx Ey (evolves_trans _ _ _ H1 He)).
    rewrite (IHl _ _ _ r'' Hwf Eys He). reflexivity.
Qed.

Lemma dict_loop_again force items :
  ∀ acc r out r' r'',
    NoDup (Dict.keys acc ++ Dict.keys items) ->
    forallb (fun kv => wf_json kv.2) items = true ->
    dict_loop (anonymise_fuel n) force items acc r = Some (out, r') ->
    evolves r' r'' ->
    dict_loop (anonymise_fuel n) force items acc r'' = Some (out, r'').
Proof.
  induction items as [|[k v] items IHitems]; intros acc r out r' r'' Hnd Hwf; simpl.
  - intros [= <- <-] _. reflexivity.
  - simpl in Hwf. apply andb_prop in Hwf as [Hv Hwf]. unfold bind.
    destruct (entry _ _ _ _ r) as [[x r1]|] eqn:Ex; [|discriminate].
    intros Hloop He.
    assert (Hk : k ∉ Dict.keys acc).
    { apply NoDup_app in Hnd as (_ & Hd & _). intros Hin.
      apply (Hd _ Hin). simpl. left. }
    assert (Hnd' : NoDup (Dict.keys (Dict.set acc k x) ++ Dict.keys items)).
    { rewrite (dict_set_fresh _ _ _ Hk). unfold Dict.keys in *.
      rewrite fmap_app, <- app_assoc. exact Hnd. }
    assert (H1 : evolves r1 r').
    { destruct (dict_loop_sound n (anonymise_fuel_sound n) force items _ _ _ _
                  Hnd' Hwf Hloop) as (res & _ & Hres).
      eapply anon_items_evolves, Hres. }
    rewrite (entry_again _ _ _ _ _ _ r'' (wf_limit _ _ Hv) Ex
               (evolves_trans _ _ _ H1 He)).
    apply (IHitems _ _ _ _ r'' Hnd' Hwf Hloop He).
Qed.

End Again.

Lemma anonymise_fuel_again n :
  ∀ v pk force r out r' r'',
    wf_json v = true ->
    anonymise_fuel n v pk force r = Some (out, r') ->
    evolves r' r'' ->
    anonymise_fuel n v pk force r'' = Some (out, r'').
Proof.
  induction n as [|n IH]; intros v pk force r out r' r'' Hwf; [discriminate|].
  destruct v; try (simpl; intros [= <- <-] _; reflexivity).
  - simpl. destruct force; [|intros [= <- <-] _; reflexivity].
    apply string_token_again.
  - rewrite !anonymise_fuel_list. unfold bind.
    destruct (for_each _ l r) as [[l' r1]|] eqn:El; [|discriminate].
    intros [= <- <-] He.
    rewrite (for_each_again n IH _ _ _ _ _ _ r'' Hwf El He). reflexivity.
  - rewrite !anonymise_fuel_dict. unfold bind.
    destruct (dict_loop _ _ _ _ r) as [[res r1]|] eqn:Ed; [|discriminate].
    intros [= <- <-] He. simpl in Hwf. apply andb_prop in Hwf as [Hnd Hwf].
    apply bool_decide_eq_true in Hnd.
    rewrite (dict_loop_again n IH force items [] r res r1 r'' Hnd Hwf Ed He).
    reflexivity.
Qed.

(** X20. Anonymising a document again later in the same run returns
    the same output and adds nothing to the registry: every string it
    meets already has its token. *)
Theorem anonymise_again (v : json) (pk : option string) (force : bool)
    (r : registry) (out : json) (r' r'' : registry) :
  wf_json v = true ->
  anonymise v pk force r = Some (out, r') ->
  evolves r' r'' ->
  anonymise v pk force r'' = Some (out, r'').
Proof. apply anonymise_fuel_again. Qed.

Lemma anonymise_again_witness :
  ∃ out r',
    anonymise_document scenario = Some (out, r')
    ∧ anonymise scenario None false r' = Some (out, r').
Proof.
  destruct (anonymise_fuel_total (S (height scenario)) scenario None false
              empty_registry) as (out & r' & E); [lia|].
  exists out, r'. split; [exact E|].
  apply (anonymise_again scenario None false empty_registry out r' r' eq_refl E).
  apply evolves_refl.
Defined.

(** X21. Anonymisation is consistent within a document: of two forced
    string leaves that the truncation keeps, the output holds the same
    token at both places exactly when the input holds the same string
    at both places. *)
Theorem consistent_tokens (v : json) (pk : option string) (force : bool)
    (r : registry) (out : json) (r' : registry) (p q : list step)
    (a b : string) :
  wf_json v = true ->
  registry_ok r ->
  anonymise v pk force r = Some (out, r') ->
  get_path v p = Some (JStr a) ->
  get_path v q = Some (JStr b) ->
  kept p = true -> kept q = true ->
  mode_at (mode_of force) p = Forced ->
  mode_at (mode_of force) q = Forced ->
  ∃ ta tb,
    get_path out p = Some (JStr ta)
    ∧ get_path out q = Some (JStr tb)
    ∧ (ta = tb <-> a = b).
Proof.
  intros Hwf Hok H Hp Hq Hkp Hkq Hmp Hmq.
  pose proof (anonymise_anon _ _ _ _ _ _ Hwf H) as Ha.
  destruct (anon_paths _ _ _ _ _ _ _ Ha Hp Hkp) as (ta & Hta & Hla).
  destruct (anon_paths _ _ _ _ _ _ _ Ha Hq Hkq) as (tb & Htb & Hlb).
  rewrite Hmp in Hla. rewrite Hmq in Hlb. simpl in Hla, Hlb.
  exists ta, tb. split; [exact Hta|]. split; [exact Htb|].
  assert (Hok' : registry_ok r')
    by (eapply registry_ok_evolves; [eapply anon_evolves, Ha|exact Hok]).
  split.
  - intros <-. eapply token_of_inj; eassumption.
  - intros <-. congruence.
Qed.

Lemma consistent_tokens_witness :
  ∃ out r' ta tb,
    anonymise_document scenario = Some (out, r')
    ∧ get_path out [Key "contacts"; Idx 0; Key "name"] = Some (JStr ta)
    ∧ get_path out [Key "contacts"; Idx 0; Key "email"] = Some (JStr tb)
    ∧ ta <> tb.
Proof.
  destruct (anonymise_fuel_total (S (height scenario)) scenario None false
              empty_registry) as (out & r' & E); [lia|].
  destruct (consistent_tokens scenario None false empty_registry out r'
              [Key "contacts"; Idx 0; Key "name"]
              [Key "contacts"; Idx 0; Key "email"]
              "Jane Doe" "jane@x.com" eq_refl registry_ok_empty E
              eq_refl eq_refl eq_refl eq_refl eq_refl eq_refl)
    as (ta & tb & Hta & Htb & Hiff).
  exists out, r', ta, tb. split; [exact E|]. split; [exact Hta|].
  split; [exact Htb|]. intros Heq. apply Hiff in Heq. discriminate Heq.
Defined.

(** * The recursion limit *)

Lemma nested_lists_height n : height (nested_lists n) = n.
Proof.
  induction n as [|n IH]; [reflexivity|].
  change (nested_lists (S n)) with (JList [nested_lists n]).
  simpl. rewrite IH, Nat.max_0_r. reflexivity.
Qed.





(** * The value a mapping stores under a key, within the run *)

Section Run.

Variable n : nat.

Lemma anon_entry_evolves force k v r x r' :
  anon_entry force k v r x r' -> evolves r r'.
Proof. apply anon_evolves_all. Qed.

(** Each value of the new mapping is the [entry] of its key, computed
    at a registry of the run and followed by the rest of the run. *)
Lemma dict_loop_run force items :
  ∀ acc r out r',
    NoDup (Dict.keys acc ++ Dict.keys items) ->
    forallb (fun kv => wf_json kv.2) items = true ->
    dict_loop (anonymise_fuel n) force items acc r = Some (out, r') ->
    ∃ res,
      out = acc ++ res
      ∧ ∀ k v, Dict.get items k = Some v ->
               ∃ x r1 r2,
                 Dict.get res k = Some x
                 ∧ entry (anonymise_fuel n) force k (limit k v) r1 = Some (x, r2)
                 ∧ evolves r r1 ∧ evolves r2 r'.
Proof.
  induction items as [|[k0 v0] items IHitems]; intros acc r out r' Hnd Hwf; simpl.
  - intros [= <- <-]. exists []. split; [symmetry; apply app_nil_r|].
    intros k v Hg. discriminate Hg.
  - simpl in Hwf. apply andb_prop in Hwf as [Hv Hwf]. unfold bind.
    destruct (entry _ _ _ _ r) as [[x0 ra]|] eqn:Ex; [|discriminate].
    intros Hloop.
    assert (Hk : k0 ∉ Dict.keys acc).
    { apply NoDup_app in Hnd as (_ & Hd & _). intros Hin.
      apply (Hd _ Hin). simpl. left. }
    assert (Hnd' : NoDup (Dict.keys (Dict.set acc k0 x0) ++ Dict.keys items)).
    { rewrite (dict_set_fresh _ _ _ Hk). unfold Dict.keys in *.
      rewrite fmap_app, <- app_assoc. exact Hnd. }
    assert (Hfirst : evolves r ra).
    { eapply anon_entry_evolves, entry_sound;
        [apply anonymise_fuel_sound|apply wf_limit, Hv|exact Ex]. }
    assert (Hrest : evolves ra r').
    { destruct (dict_loop_sound n (anonymise_fuel_sound n) force items _ _ _ _
                  Hnd' Hwf Hloop) as (res & _ & Hres).
      eapply anon_items_evolves, Hres. }
    destruct (IHitems _ _ _ _ Hnd' Hwf Hloop) as (res & -> & Hall).
    exists ((k0, x0) :: res). split.
    { rewrite (dict_set_fresh _ _ _ Hk), <- app_assoc. reflexivity. }
    intros k v Hg. simpl. destruct (String.eqb_spec k0 k) as [->|Hne].
    + injection Hg as <-. exists x0, r, ra.
      split; [reflexivity|]. split; [exact Ex|].
      split; [apply evolves_refl|exact Hrest].
    + destruct (Hall k v Hg) as (x & r1 & r2 & Hx & He & H1 & H2).
      exists x, r1, r2. split; [exact Hx|]. split; [exact He|].
      split; [apply (evolves_trans _ _ _ Hfirst H1)|exact H2].
Qed.

End Run.

Lemma anonymise_dict_run items k v pk force r out r' :
  wf_json (JDict items) = true ->
  anonymise (JDict items) pk force r = Some (out, r') ->
  Dict.get items k = Some v ->
  ∃ n x r1 r2,
    get_path out [Key k] = Some x
    ∧ entry (anonymise_fuel n) force k (limit k v) r1 = Some (x, r2)
    ∧ evolves r r1 ∧ evolves r2 r'.
Proof.
  intros Hwf H Hg. unfold anonymise in H. rewrite anonymise_fuel_dict in H.
  unfold bind in H.
  destruct (dict_loop _ _ _ _ r) as [[res r1]|] eqn:Ed; [|discriminate].
  injection H as <- <-. simpl in Hwf. apply andb_prop in Hwf as [Hnd Hwf].
  apply bool_decide_eq_true in Hnd.
  destruct (dict_loop_run _ force items [] r res r1 Hnd Hwf Ed)
    as (res' & -> & Hall).
  destruct (Hall k v Hg) as (x & ra & rb & Hx & He & H1 & H2).
  exists (height (JDict items)), x, ra, rb. simpl. rewrite Hx.
  split; [reflexivity|]. split; [exact He|]. split; assumption.
Qed.

(** C2, as the code has it. In a well-formed mapping, the value stored
    under the key ["data_files"] or ["data_resources"] (in exactly this
    spelling) for a list is what the transform returns, with
    [force = true], on that list cut to its first element, at the
    registry the run has reached there, and again at the final registry
    of the run, which that call leaves as it is. It is a list of at
    most one element, empty when the input list is; every string in it
    is the token that the final registry holds for the string at the
    same place of the first element. This holds whatever the flag of
    the call. *)
Theorem limited_list_first_only (items : list (string * json)) (k : string)
    (l : list json) (pk : option string) (force : bool) (r : registry)
    (out : json) (r' : registry) :
  wf_json (JDict items) = true ->
  anonymise (JDict items) pk force r = Some (out, r') ->
  Dict.get items k = Some (JList l) ->
  k = "data_files" ∨ k = "data_resources" ->
  ∃ l' r1 r2,
    get_path out [Key k] = Some (JList l')
    ∧ evolves r r1 ∧ evolves r2 r'
    ∧ anonymise (JList (take 1 l)) (Some k) true r1 = Some (JList l', r2)
    ∧ anonymise (JList (take 1 l)) (Some k) true r' = Some (JList l', r')
    ∧ length l' = Nat.min 1 (length l)
    ∧ (∀ p t, get_path (JList l') p = Some (JStr t) ->
              ∃ s, get_path (JList (take 1 l)) p = Some (JStr s)
                   ∧ token_of r' s = Some t).
Proof.
  intros Hwf H Hg Hk.
  destruct (anonymise_dict_run _ _ _ _ _ _ _ _ Hwf H Hg)
    as (n & x & r1 & r2 & Hx & He & H1 & H2).
  assert (Hl : limited k = true) by (destruct Hk as [-> | ->]; reflexivity).
  rewrite limit_limited, Hl in He. simpl in He. unfold entry in He.
  rewrite (limited_block _ Hl) in He.
  assert (Hrec : anonymise_fuel n (JList (take 1 l)) (Some k) true r1 = Some (x, r2))
    by (destruct (force || mem (lower k) PIPELINE_FIELDS); exact He).
  assert (Hwfl : wf_json (JList (take 1 l)) = true).
  { simpl in Hwf. apply andb_prop in Hwf as [_ Hall].
    apply (wf_first_only (JList l)), (dict_wf_get _ _ _ Hall Hg). }
  pose proof (anonymise_fuel_sound _ _ _ _ _ _ _ Hwfl Hrec) as Ha.
  pose proof (anonymise_fuel_again _ _ _ _ _ _ _ r' Hwfl Hrec H2) as Hagain.
  pose proof (anonymise_fuel_sound _ _ _ _ _ _ _ Hwfl Hagain) as Ha'.
  pose proof (anon_shape _ _ _ _ _ Ha) as Hs.
  apply same_shape_list_length in Hs as (l' & -> & Hlen).
  exists l', r1, r2. split; [exact Hx|]. split; [exact H1|]. split; [exact H2|].
  split; [apply (anonymise_fuel_anonymise _ _ _ _ _ _ Hrec)|].
  split; [apply (anonymise_fuel_anonymise _ _ _ _ _ _ Hagain)|].
  split; [rewrite Hlen; apply length_take|].
  destruct anon_forced_all as [Hall _].
  apply (Hall _ _ _ _ _ Ha' eq_refl).
Qed.

Lemma limited_list_first_only_witness :
  ∃ out r' l',
    anonymise_document two_files = Some (out, r')
    ∧ get_path out [Key "data_files"] = Some (JList l')
    ∧ anonymise (JList [ JStr "a.csv" ]) (Some "data_files") true r'
      = Some (JList l', r')
    ∧ length l' = 1.
Proof.
  destruct (anonymise_fuel_total (S (height two_files)) two_files None false
              empty_registry) as (out & r' & E); [lia|].
  destruct (limited_list_first_only
              [ ("data_files", JList [ JStr "a.csv"; JStr "b.csv" ]) ]
              "data_files" [ JStr "a.csv"; JStr "b.csv" ]
              None false empty_registry out r' eq_refl E eq_refl
              (or_introl eq_refl))
    as (l' & _ & _ & Hx & _ & _ & _ & Hfinal & Hlen & _).
  exists out, r', l'. split; [exact E|]. split; [exact Hx|].
  split; [exact Hfinal|exact Hlen].
Defined.

(** * The script around the transform, within the run *)

(** X13. For a loaded mapping whose ["records"] is a list, what the
    script's step from the loaded document to the written value
    returns is a mapping with the same keys in the same order, whose
    ["records"] is what the transform returns, without force, on the
    first five records, at the registry the run has reached there and
    again at the final registry, which that call leaves as it is: a
    list of [min 5 n] elements for [n] records. *)
Theorem script_trims_records (items : list (string * json)) (l : list json)
    (out : json) (r' : registry) :
  wf_json (JDict items) = true ->
  Dict.get items "records" = Some (JList l) ->
  script (JDict items) = inr (Some (out, r')) ->
  ∃ res l' r1 r2,
    out = JDict res
    ∧ Dict.keys res = Dict.keys items
    ∧ Dict.get res "records" = Some (JList l')
    ∧ evolves empty_registry r1 ∧ evolves r2 r'
    ∧ anonymise (JList (take MAX_RECORDS l)) (Some "records") false r1
      = Some (JList l', r2)
    ∧ anonymise (JList (take MAX_RECORDS l)) (Some "records") false r'
      = Some (JList l', r')
    ∧ length l' = Nat.min MAX_RECORDS (length l).
Proof.
  intros Hwf Hg Hscript.
  pose proof (wf_trim _ _ Hwf Hg) as Hwf'.
  set (items' := Dict.set items "records" (JList (take MAX_RECORDS l))) in *.
  assert (E : anonymise (JDict items') None false empty_registry = Some (out, r')).
  { unfold script, trim_records, has_records in Hscript.
    rewrite (proj2 (dict_get_keys items "records")) in Hscript
      by (eexists; exact Hg).
    rewrite Hg in Hscript. injection Hscript as Hscript. exact Hscript. }
  pose proof (anon_shape _ _ _ _ _ (anonymise_anon _ _ _ _ _ _ Hwf' E)) as Hshape.
  apply same_shape_dict_keys in Hshape as (res & -> & Hkeys).
  destruct (anonymise_dict_run items' "records" _ None false empty_registry _ _
              Hwf' E (dict_get_set _ _ _))
    as (n & x & r1 & r2 & Hx & He & H1 & H2).
  change (limit "records" (JList (take MAX_RECORDS l)))
    with (JList (take MAX_RECORDS l)) in He.
  assert (Hrec : anonymise_fuel n (JList (take MAX_RECORDS l)) (Some "records")
                   false r1 = Some (x, r2)) by exact He.
  assert (Hwfl : wf_json (JList (take MAX_RECORDS l)) = true).
  { simpl in Hwf. apply andb_prop in Hwf as [_ Hall].
    apply (wf_take _ _ (dict_wf_get _ _ _ Hall Hg)). }
  pose proof (anonymise_fuel_again _ _ _ _ _ _ _ r' Hwfl Hrec H2) as Hagain.
  pose proof (anon_shape _ _ _ _ _ (anonymise_fuel_sound _ _ _ _ _ _ _ Hwfl Hrec))
    as Hs'.
  apply same_shape_list_length in Hs' as (l' & -> & Hlen).
  exists res, l', r1, r2. split; [reflexivity|].
  split; [rewrite Hkeys; apply (dict_keys_set _ _ _ _ Hg)|].
  split; [simpl in Hx; destruct (Dict.get res "records"); congruence|].
  split; [exact H1|]. split; [exact H2|].
  split; [apply (anonymise_fuel_anonymise _ _ _ _ _ _ Hrec)|].
  split; [apply (anonymise_fuel_anonymise _ _ _ _ _ _ Hagain)|].
  rewrite Hlen. apply length_take.
Qed.

Lemma script_trims_records_witness :
  ∃ res l',
    script six_records
    = inr (Some (JDict res, Registry ∅ ∅ ∅ ∅))
    ∧ Dict.keys res = ["uuid"; "records"]
    ∧ Dict.get res "records" = Some (JList l')
    ∧ length l' = 5.
Proof.
  destruct (script_trims_records
              [ ("uuid", JStr "u-1");
                ("records", JList [ JInt 1; JInt 2; JInt 3; JInt 4; JInt 5; JInt 6 ]) ]
              [ JInt 1; JInt 2; JInt 3; JInt 4; JInt 5; JInt 6 ]
              (JDict [ ("uuid", JStr "u-1");
                       ("records", JList [ JInt 1; JInt 2; JInt 3; JInt 4; JInt 5 ]) ])
              (Registry ∅ ∅ ∅ ∅) eq_refl eq_refl)
    as (res & l' & _ & _ & Hout & Hk & Hg & _ & _ & _ & _ & Hl).
  - vm_compute. reflexivity.
  - injection Hout as <-. exists
      [ ("uuid", JStr "u-1");
        ("records", JList [ JInt 1; JInt 2; JInt 3; JInt 4; JInt 5 ]) ], l'.
    split; [vm_compute; reflexivity|]. split; [reflexivity|].
    split; [exact Hg|exact Hl].
Defined.

(** X14. Between loading and writing, the script raises a [TypeError]
    exactly when the loaded document is null, a boolean or a number, a
    list that has the string ["records"] as an element, or a string
    that contains ["records"]; no mapping raises it, with or without
    ["records"], whatever ["records"] holds. *)
Theorem script_raises (data : json) :
  from_load data = true ->
  script data = inl TypeError
  <-> match data with
      | JDict _ => False
      | JList l => JStr "records" ∈ l
      | JStr s => contains "records" s = true
      | _ => True
      end.
Proof.
  intros Hload. unfold script, trim_records, has_records.
  destruct data as [| | | |s|l|items|]; try discriminate Hload;
    try (split; [trivial|reflexivity]).
  - destruct (contains "records" s); split;
      trivial; try reflexivity; discriminate.
  - pose proof (existsb_is_records l) as Hl.
    destruct (existsb is_records l); split.
    + intros _. apply Hl. reflexivity.
    + reflexivity.
    + discriminate.
    + intros H. apply Hl in H. discriminate H.
  - split; [|intros []].
    destruct (existsb _ _); [|discriminate].
    destruct (Dict.get items "records") as [[]|]; discriminate.
Qed.

Lemma script_raises_witness :
  script (JStr "no records here") = inl TypeError.
Proof.
  apply (script_raises (JStr "no records here")); reflexivity.
Defined.
